(** * TibiaSprites: the harvest scripts, embedded and verified

    The four scripts of the repository (achievements, mounts, outfits,
    creatures/bosses) are embedded function by function.

    Modelling conventions.
    - A Python [str] is a list of characters ([str := list ascii]).  The
      character classes ([\s], [\w], [\d], [str.lower], [str.upper],
      [str.strip], [str.split]) are those of Python on the code points
      0..127; a character above 127 is kept as it is and belongs to no
      class.
    - A parsed document (BeautifulSoup) is a finite tree of text nodes and
      elements; [find], [find_all] and [get_text] walk it in document
      order.
    - The network and the file system are explicit: a request is answered
      by a function of the request (an unchanged source), a directory is a
      finite map from file names to contents.
    - An exception is a value of [exn] carried in the [Raise] case of
      [result]. *)

From Stdlib Require Import ZArith Ascii String List Bool Lia Permutation.
From stdpp Require Import gmap strings list sorting.

Local Open Scope list_scope.
Local Open Scope bool_scope.
#[local] Set Warnings "-register-all".

(** ** Characters and strings *)

Definition str := list ascii.

Definition py (s : string) : str := list_ascii_of_string s.

Definition code (c : ascii) : nat := nat_of_ascii c.

Definition chr_eqb (a b : ascii) : bool := Ascii.eqb a b.

(** [str.isspace] / regex [\s] on the ASCII range:
    TAB, LF, VT, FF, CR, FS, GS, RS, US and SPACE. *)
Definition is_space (c : ascii) : bool :=
  let n := code c in
  ((9 <=? n) && (n <=? 13)) || ((28 <=? n) && (n <=? 32)).

(** regex [\d] *)
Definition is_digit (c : ascii) : bool :=
  let n := code c in (48 <=? n) && (n <=? 57).

Definition is_upper (c : ascii) : bool :=
  let n := code c in (65 <=? n) && (n <=? 90).

Definition is_lower (c : ascii) : bool :=
  let n := code c in (97 <=? n) && (n <=? 122).

(** regex [\w]: alphanumeric or underscore *)
Definition is_word (c : ascii) : bool :=
  is_upper c || is_lower c || is_digit c || chr_eqb c "_".

Definition lower_c (c : ascii) : ascii :=
  if is_upper c then ascii_of_nat (code c + 32) else c.

Definition upper_c (c : ascii) : ascii :=
  if is_lower c then ascii_of_nat (code c - 32) else c.

(** [s.lower()], [s.upper()] *)
Definition lower (s : str) : str := map lower_c s.
Definition upper (s : str) : str := map upper_c s.

Fixpoint drop_while (p : ascii -> bool) (s : str) : str :=
  match s with
  | [] => []
  | c :: r => if p c then drop_while p r else s
  end.

Fixpoint take_while (p : ascii -> bool) (s : str) : str :=
  match s with
  | [] => []
  | c :: r => if p c then c :: take_while p r else []
  end.

(** [s.lstrip()], [s.rstrip()], [s.strip()] *)
Definition lstrip (s : str) : str := drop_while is_space s.
Definition rstrip (s : str) : str := rev (drop_while is_space (rev s)).
Definition strip (s : str) : str := rstrip (lstrip s).

(** [sep.join(parts)] *)
Fixpoint join (sep : str) (parts : list str) : str :=
  match parts with
  | [] => []
  | [p] => p
  | p :: rest => p ++ sep ++ join sep rest
  end.

(** [s.split(sep)] for a one-character separator: the fields between the
    separators, one more than there are separators. *)
Fixpoint split_on (sep : ascii) (s : str) : list str :=
  match s with
  | [] => [[]]
  | c :: r =>
      if chr_eqb c sep then [] :: split_on sep r
      else match split_on sep r with
           | [] => [[c]]
           | f :: fs => (c :: f) :: fs
           end
  end.

(** [s.split()]: the maximal runs of non-whitespace characters.  [cur] is
    the run being read, reversed. *)
Fixpoint split_ws_from (cur : str) (s : str) : list str :=
  match s with
  | [] => match cur with [] => [] | _ => [rev cur] end
  | c :: r =>
      if is_space c
      then match cur with
           | [] => split_ws_from [] r
           | _ => rev cur :: split_ws_from [] r
           end
      else split_ws_from (c :: cur) r
  end.

Definition split_ws (s : str) : list str := split_ws_from [] s.

(** [re.sub(r"\s+", rep, s)]: the scanner replaces every maximal run of
    whitespace by [rep]; [in_run] tells that the run was already
    replaced. *)
Fixpoint sub_ws_from (in_run : bool) (rep : str) (s : str) : str :=
  match s with
  | [] => []
  | c :: r =>
      if is_space c
      then (if in_run then sub_ws_from true rep r
            else rep ++ sub_ws_from true rep r)
      else c :: sub_ws_from false rep r
  end.

Definition sub_ws (rep : str) (s : str) : str := sub_ws_from false rep s.

(** [s.replace(a, b)] for one-character [a] and [b] *)
Definition replace_chr (a b : ascii) (s : str) : str :=
  map (fun c => if chr_eqb c a then b else c) s.

Definition str_eqb (a b : str) : bool := bool_decide (a = b).

Definition mem_str (x : str) (l : list str) : bool := existsb (str_eqb x) l.

(** ** download_fandom_mounts.py / download_fandom_outfits_female_addons.py:
       [safe_filename] *)

(** the characters kept by [re.sub(r"[^\w\s\-\(\)\[\]\.]", "", name)] *)
Definition keep_char (c : ascii) : bool :=
  is_word c || is_space c || mem_str [c] (map (fun x => [x]) (py "-()[].")).

Definition safe_filename (name : str) : str :=
  let s := List.filter keep_char name in
  let s := sub_ws (py "_") (strip s) in
  match s with
  | [] => py "unknown"
  | _ => take 160 s
  end.

(** ** download_fandom_achievements.py: [norm], [parse_int] *)

(** [re.sub(r"\s+", " ", (s or "").strip().lower())] *)
Definition norm (s : str) : str := sub_ws (py " ") (lower (strip s)).

(** [re.search(r"-?\d+", s)]: the text of the leftmost match.  At a
    position the optional sign is tried first; a sign not followed by a
    digit matches nothing and the search moves on. *)
Fixpoint re_search_int (s : str) : option str :=
  match s with
  | [] => None
  | c :: r =>
      if is_digit c then Some (c :: take_while is_digit r)
      else if chr_eqb c "-" then
        match r with
        | d :: r' =>
            if is_digit d then Some (c :: d :: take_while is_digit r')
            else re_search_int r
        | [] => None
        end
      else re_search_int r
  end.

Definition digit_val (c : ascii) : Z := Z.of_nat (code c - 48).

(** the value of a run of decimal digits, most significant first *)
Definition digits_val (ds : str) : Z :=
  fold_left (fun acc d => 10 * acc + digit_val d)%Z ds 0%Z.

(** [int(text)] on a text matched by [-?\d+] *)
Definition int_of (t : str) : Z :=
  match t with
  | c :: ds => if chr_eqb c "-" then (- digits_val ds)%Z else digits_val t
  | [] => 0%Z
  end.

(** [parse_int]: [None] is Python's [None] *)
Definition parse_int (s : str) : option Z :=
  match re_search_int s with
  | Some t => Some (int_of t)
  | None => None
  end.

(** ** download_tibiawiki_assets.py: [build_fandom_gif_file] *)

Definition LOWER : list str :=
  map py ["a"; "an"; "the"; "of"; "in"; "on"; "to"; "and"; "with"; "from"]%string.

(** [seg[:1].upper() + seg[1:].lower()], the empty segment kept as it is *)
Definition cap_seg (seg : str) : str :=
  match seg with
  | [] => seg
  | _ => upper (take 1 seg) ++ lower (drop 1 seg)
  end.

(** the body of the loop over [enumerate(words)] *)
Definition out_word (i : nat) (w : str) : str :=
  let segs := split_on "-" w in
  let segs2 := map cap_seg segs in
  let out := join (py "-") segs2 in
  if (0 <? i) && mem_str (lower out) LOWER then lower out else out.

(** the stem, [s2] in the source *)
Definition gif_stem (name : str) : str :=
  let s := join (py " ") (split_ws (strip name)) in
  let words := split_on " " s in
  let out_words := imap out_word words in
  replace_chr " " "_" (join (py " ") out_words).

Definition build_fandom_gif_file (name : str) : option str :=
  match name with
  | [] => None
  | _ => Some (gif_stem name ++ py ".gif")
  end.

(** the characters a safe file name is made of: word characters (the
    underscore among them), hyphen, parentheses, square brackets, dot *)
Definition allowed_char (c : ascii) : bool :=
  is_word c || mem_str [c] (map (fun x => [x]) (py "-()[].")).



(** [needle in hay], [s.startswith(p)], [s.endswith(p)] *)
Fixpoint is_prefix (p s : str) : bool :=
  match p, s with
  | [], _ => true
  | a :: p', b :: s' => chr_eqb a b && is_prefix p' s'
  | _ :: _, [] => false
  end.

Fixpoint contains (needle hay : str) : bool :=
  is_prefix needle hay ||
  match hay with
  | [] => false
  | _ :: r => contains needle r
  end.

Definition is_suffix (p s : str) : bool := is_prefix (rev p) (rev s).

(** truthiness of a string *)
Definition nonempty (s : str) : bool :=
  match s with [] => false | _ => true end.

(** ** The parsed document *)

(** A node of the tree built by the HTML parser: a text node
    (NavigableString) or an element (Tag) with its name, its attribute
    dictionary and its children. *)
Inductive node : Type :=
| Text (s : str)
| Elem (tag : str) (attrs : gmap str str) (kids : list node).

(** [n.descendants]: every node below [n], in document order *)
Fixpoint descendants (n : node) : list node :=
  match n with
  | Text _ => []
  | Elem _ _ ks => flat_map (fun k => k :: descendants k) ks
  end.

Definition is_tag (names : list str) (n : node) : bool :=
  match n with
  | Elem t _ _ => mem_str t names
  | Text _ => false
  end.

(** [tag.get(key)] *)
Definition attr (key : str) (n : node) : option str :=
  match n with
  | Elem _ a _ => a !! key
  | Text _ => None
  end.

Definition has_attr (key : str) (n : node) : bool :=
  match attr key n with Some _ => true | None => false end.

(** [n.find_all(names)], [n.find(name)] *)
Definition find_all (names : list str) (n : node) : list node :=
  List.filter (is_tag names) (descendants n).

Definition find (name : str) (n : node) : option node :=
  head (find_all [name] n).

(** [n.find_all(name, key=True)], [n.find(name, key=True)] *)
Definition find_all_with (name key : str) (n : node) : list node :=
  List.filter (has_attr key) (find_all [name] n).

Definition find_with (name key : str) (n : node) : option node :=
  head (find_all_with name key n).

(** the text nodes below [n], in document order *)
Definition strings (n : node) : list str :=
  flat_map (fun d => match d with Text s => [s] | Elem _ _ _ => [] end)
           (descendants n).

(** [n.get_text(sep, strip=True)]: the stripped text nodes that are not
    empty, joined by [sep] *)
Definition get_text (sep : str) (n : node) : str :=
  join sep (List.filter nonempty (map strip (strings n))).

(** [sup.decompose()] for every [sup] below [n]: the tree without them *)
Fixpoint decompose_sups (n : node) : node :=
  match n with
  | Text _ => n
  | Elem t a ks =>
      Elem t a (flat_map (fun k => if is_tag [py "sup"] k then []
                                   else [decompose_sups k]) ks)
  end.

(** [cell_text]: the text of the cell once its [sup] elements are removed.
    The source removes them in place, which a later read sees only when it
    reads a node inside a cell read before (a table nested in a cell); rows
    and cells are read here as separate values. *)
Definition cell_text (cell : node) : str :=
  sub_ws (py " ") (get_text (py " ") (decompose_sups cell)).

(** ** download_fandom_achievements.py: the table and its rows *)

Definition header_texts (ths : list node) : list str :=
  map (fun th => norm (get_text (py " ") th)) ths.

(** the loop of [find_achievements_table] over [soup.find_all("table")] *)
Fixpoint find_table_in (tables : list node) : option (node * list str) :=
  match tables with
  | [] => None
  | table :: rest =>
      match find (py "tr") table with
      | None => find_table_in rest
      | Some header_row =>
          let ths := find_all [py "th"] header_row in
          if length ths <? 5 then find_table_in rest
          else
            let headers := header_texts ths in
            if mem_str (py "name") headers && mem_str (py "grade") headers &&
               mem_str (py "points") headers && mem_str (py "description") headers
            then Some (table, headers)
            else find_table_in rest
      end
  end.

Definition find_achievements_table (soup : node) : option (node * list str) :=
  find_table_in (find_all [py "table"] soup).

(** [{h: i for i, h in enumerate(headers)}]: a later column with the same
    header replaces an earlier one *)
Definition header_index (headers : list str) : gmap str nat :=
  fold_left (fun m ih => <[ih.2 := ih.1]> m) (imap (fun i h => (i, h)) headers) ∅.

Record achievement : Type := {
  a_name : str;
  a_grade : option Z;
  a_points : option Z;
  a_description : str;
  a_id : option (option Z);       (* key absent, or its value *)
  a_secret : option bool;
  a_implemented : option str
}.

Definition max4 (a b c d : nat) : nat := Nat.max (Nat.max a b) (Nat.max c d).

(** the test that skips a row: [not tds or len(tds) <= max(...)] *)
Definition row_too_short (tds : list node) (name_i grade_i points_i desc_i : nat) : bool :=
  (length tds =? 0) || (length tds <=? max4 name_i grade_i points_i desc_i).

(** the name of a row of the achievements table *)
Definition achievement_name (name_cell : node) : str :=
  strip (match find (py "a") name_cell with
         | Some a => get_text [] a
         | None => cell_text name_cell
         end).

(** an optional column: read when the header exists and the row is long
    enough *)
Definition optional_cell (i : option nat) (tds : list node) : option node :=
  match i with
  | Some i => if i <? length tds then tds !! i else None
  | None => None
  end.

Definition check_mark : str := py "✓".

(** the body of the loop over [rows[1:]]: [None] is [continue] *)
Definition achievement_row (name_i grade_i points_i desc_i : nat)
    (id_i secret_i impl_i : option nat) (tr : node) : option achievement :=
  let tds := find_all [py "td"; py "th"] tr in
  if row_too_short tds name_i grade_i points_i desc_i then None
  else
    name_cell ← tds !! name_i;
    let name := achievement_name name_cell in
    if negb (nonempty name) then None
    else
      grade_cell ← tds !! grade_i;
      points_cell ← tds !! points_i;
      desc_cell ← tds !! desc_i;
      Some {| a_name := name;
              a_grade := parse_int (cell_text grade_cell);
              a_points := parse_int (cell_text points_cell);
              a_description := cell_text desc_cell;
              a_id := (fun c => parse_int (cell_text c)) <$> optional_cell id_i tds;
              a_secret :=
                (fun c => let sec := cell_text c in
                          contains check_mark sec || contains (py "yes") (lower sec))
                  <$> optional_cell secret_i tds;
              a_implemented := cell_text <$> optional_cell impl_i tds |}.

Inductive exn : Type :=
| RuntimeError (msg : str)
| TypeError
| HTTPError (status : Z)
| ConnectionError
| JSONDecodeError.

Inductive result (A : Type) : Type :=
| Ok (a : A)
| Raise (e : exn).
Arguments Ok {A} a.
Arguments Raise {A} e.

(** running on after a call that may raise: [x ← m; k] and [m;; k] *)
#[global] Instance result_bind : MBind result :=
  fun A B k m => match m with Ok a => k a | Raise e => Raise e end.

#[global] Instance result_ret : MRet result := fun A a => Ok a.

(** [main] of the achievements script from the parsed page on: the list
    written to achievements.json *)
Definition achievements_main (soup : node) : result (list achievement) :=
  match find_achievements_table soup with
  | None =>
      Raise (RuntimeError (py "Could not find the Achievements list table. The page structure may have changed."))
  | Some (table, headers) =>
      let idx := header_index headers in
      match idx !! py "name", idx !! py "grade", idx !! py "points",
            idx !! py "description" with
      | Some name_i, Some grade_i, Some points_i, Some desc_i =>
          let rows := find_all [py "tr"] table in
          Ok (omap (achievement_row name_i grade_i points_i desc_i
                      (idx !! py "id") (idx !! py "secret?") (idx !! py "implemented"))
                   (drop 1 rows))
      | _, _, _, _ => Raise TypeError
      end
  end.

(** ** download_fandom_outfits_female_addons.py: the table and its rows *)





(** [a or b] on optional strings *)
Definition str_or (a b : option str) : option str :=
  match a with
  | Some (_ :: _) => a
  | _ => b
  end.

(** truthiness of an optional string *)
Definition truthy (a : option str) : bool :=
  match a with
  | Some (_ :: _) => true
  | _ => false
  end.

Definition pick_image_url_from_cell (td : node) : option str :=
  match find (py "img") td with
  | None => None
  | Some img => str_or (attr (py "data-src") img) (attr (py "src") img)
  end.

Record outfit : Type := { o_name : str; o_img_url : str }.

(** the name of a row of the outfits table *)
Definition outfit_name (name_cell : node) : str :=
  strip (match find (py "a") name_cell with
         | Some a => get_text [] a
         | None => get_text (py " ") name_cell
         end).

(** the variables of the loop over the rows *)
Record scan : Type := {
  passed_header : bool;
  seen : gset str;
  results : list outfit
}.

(** one turn of the loop over [rows] in [main] *)
Definition outfit_step (female_idx : nat) (st : scan) (tr : node) : scan :=
  if negb (passed_header st) then
    let ths := find_all [py "th"] tr in
    match ths with
    | [] => st
    | _ =>
        if existsb (contains (py "female addons")) (header_texts ths)
        then {| passed_header := true; seen := seen st; results := results st |}
        else st
    end
  else
    let cells := find_all [py "td"; py "th"] tr in
    if length cells <=? female_idx then st
    else
      match cells !! 0, cells !! female_idx with
      | Some name_cell, Some female_cell =>
          let name := outfit_name name_cell in
          if negb (nonempty name) then st
          else
            let key := lower name in
            if bool_decide (key ∈ seen st) then st
            else
              match pick_image_url_from_cell female_cell with
              | Some (c :: u) =>
                  {| passed_header := true;
                     seen := {[key]} ∪ seen st;
                     results := results st ++ [{| o_name := name; o_img_url := c :: u |}] |}
              | _ => st
              end
      | _, _ => st
      end.

Definition outfit_scan (female_idx : nat) (rows : list node) : scan :=
  fold_left (outfit_step female_idx) rows
            {| passed_header := false; seen := ∅; results := [] |}.


(** ** The source site and the destination directory *)

(** Library functions, taken as they are. *)
Record library : Type := {
  parse_html : str -> node;   (* BeautifulSoup(html, "html.parser") *)
  url_path : str -> str;      (* urlparse(url).path *)
  path_suffix : str -> str;   (* Path(path).suffix *)
  unquote : str -> str        (* urllib.parse.unquote *)
}.

Record page_response : Type := { p_status : Z; p_text : str }.

(** the answer to an [action=parse] request: [q_html] is [None] when the
    body is not JSON, else the value found at parse / text / "*" *)
Record parse_response : Type := { q_status : Z; q_html : option (option str) }.

(** the answer to a [prop=imageinfo] request: [i_pages] is [None] when the
    body is not JSON, else for every page of query / pages the [url] fields
    of its [imageinfo] list (the empty list when the page has none) *)
Record info_response : Type :=
  { i_status : Z; i_pages : option (list (list (option str))) }.

(** the answer to a streamed request for a file: the bytes received and
    whether the stream ended normally *)
Record file_response : Type :=
  { f_status : Z; f_content_type : str; f_body : str; f_complete : bool }.

(** The source site: every request is answered by a function of the
    request; [None] is a request that raises on its own (no connection,
    timeout). *)
Record site : Type := {
  get_page : str -> option page_response;
  get_parse : str -> option parse_response;
  get_imageinfo : str -> option info_response;
  get_file : str -> option file_response
}.

(** the destination directory: file name to content *)
Abbreviation dir := (gmap str str).

(** [session.get(...)], [scraper.get(...)]: the answer, if the request
    does not raise on its own *)
Definition answered {A} (answer : option A) : result A :=
  match answer with
  | Some r => Ok r
  | None => Raise ConnectionError
  end.

(** [r.raise_for_status()] *)
Definition raise_for_status (status : Z) : result unit :=
  if ((400 <=? status) && (status <? 600))%Z then Raise (HTTPError status)
  else Ok tt.

(** [r.json()] *)
Definition json {A} (body : option A) : result A :=
  match body with
  | Some data => Ok data
  | None => Raise JSONDecodeError
  end.

(** [api_parse_html] of the three fandom scripts *)
Definition api_parse_html (w : site) (title : str) : result str :=
  r ← answered (get_parse w title);
  raise_for_status (q_status r);;
  html ← json (q_html r);
  match html with
  | Some (c :: h) => Ok (c :: h)
  | _ => Raise (RuntimeError (py "parse returned no html for " ++ title))
  end.

(** [download] of the mounts and outfits scripts: the content type is
    checked before the file is opened *)
Definition download_fandom (w : site) (url : str) (out_path : str) (fs : dir)
  : dir * result unit :=
  match get_file w url with
  | None => (fs, Raise ConnectionError)
  | Some r =>
      match raise_for_status (f_status r) with
      | Raise e => (fs, Raise e)
      | Ok _ =>
          let ct := lower (f_content_type r) in
          if negb (contains (py "image/") ct)
          then (fs, Raise (RuntimeError (py "Not an image: " ++ ct ++ py " from " ++ url)))
          else (<[out_path := f_body r]> fs,
                if f_complete r then Ok tt else Raise ConnectionError)
      end
  end.

(** [download] of the creatures script *)
Definition download_wiki (w : site) (url : str) (out_path : str) (fs : dir)
  : dir * result unit :=
  match get_file w url with
  | None => (fs, Raise ConnectionError)
  | Some r =>
      match raise_for_status (f_status r) with
      | Raise e => (fs, Raise e)
      | Ok _ => (<[out_path := f_body r]> fs,
                 if f_complete r then Ok tt else Raise ConnectionError)
      end
  end.

(** an entry of index.json *)
Record entry : Type := {
  e_name : str;
  e_file : str;
  e_sourceWikiFile : str;   (* "" in the fandom scripts, which have no such key *)
  e_sourceUrl : str
}.

(** [Path(urlparse(url).path).suffix or ".png"] *)
Definition extension (lib : library) (url : str) : str :=
  match path_suffix lib (url_path lib url) with
  | [] => py ".png"
  | ext => ext
  end.

(** ** download_fandom_mounts.py *)

Definition is_pi_figure (n : node) : bool :=
  is_tag [py "figure"] n &&
  match attr (py "class") n with
  | Some cls => mem_str (py "pi-item") (split_ws cls) && mem_str (py "pi-image") (split_ws cls)
  | None => false
  end.

(** [soup.select_one("figure.pi-item.pi-image img")] *)
Definition select_infobox_img (soup : node) : option node :=
  head (flat_map (find_all [py "img"]) (List.filter is_pi_figure (descendants soup))).

(** the first truthy one of [data-src] and [src] *)
Definition image_source (img : node) : option str :=
  if truthy (attr (py "data-src") img) then attr (py "data-src") img
  else if truthy (attr (py "src") img) then attr (py "src") img
  else None.

(** [normalize_image_url]: the address as it is *)
Definition normalize_image_url (u : str) : str := u.

Definition choose_best_image_from_page (lib : library) (html : str) : option str :=
  let soup := parse_html lib html in
  match (match select_infobox_img soup with
         | Some fig => image_source fig
         | None => None
         end) with
  | Some u => Some u
  | None =>
      match find (py "img") soup with
      | Some img => image_source img
      | None => None
      end
  end.

(** the variables of the mirror loops: the index being built, the
    directory, and the number of downloads that ended normally *)
Record mirror : Type := {
  out_items : list entry;
  files : dir;
  downloaded : nat
}.

(** one turn of the loop over [titles] in [main]; an exception raised in
    the [try] block leaves the index as it is *)
Definition mount_step (lib : library) (w : site) (st : mirror) (title : str) : mirror :=
  match api_parse_html w title with
  | Raise _ => st
  | Ok html =>
      match choose_best_image_from_page lib html with
      | None => st
      | Some img_url =>
          let img_url := normalize_image_url img_url in
          let filename := safe_filename title ++ extension lib img_url in
          match download_fandom w img_url filename (files st) with
          | (fs', Ok _) =>
              {| out_items := out_items st ++
                   [{| e_name := title; e_file := filename;
                       e_sourceWikiFile := []; e_sourceUrl := img_url |}];
                 files := fs';
                 downloaded := S (downloaded st) |}
          | (fs', Raise _) =>
              {| out_items := out_items st; files := fs'; downloaded := downloaded st |}
          end
      end
  end.

(** the loop over [titles]: the mirror stage of the mounts script *)
Definition mounts_mirror (lib : library) (w : site) (titles : list str) (fs : dir) : mirror :=
  fold_left (mount_step lib w) titles
            {| out_items := []; files := fs; downloaded := 0 |}.

(** one turn of the second loop of the outfits script *)
Definition outfit_mirror_step (lib : library) (w : site) (st : mirror) (item : outfit) : mirror :=
  let filename := safe_filename (o_name item) ++ extension lib (o_img_url item) in
  match download_fandom w (o_img_url item) filename (files st) with
  | (fs', Ok _) =>
      {| out_items := out_items st ++
           [{| e_name := o_name item; e_file := filename;
               e_sourceWikiFile := []; e_sourceUrl := o_img_url item |}];
         files := fs';
         downloaded := S (downloaded st) |}
  | (fs', Raise _) =>
      {| out_items := out_items st; files := fs'; downloaded := downloaded st |}
  end.

Definition outfits_mirror (lib : library) (w : site) (items : list outfit) (fs : dir) : mirror :=
  fold_left (outfit_mirror_step lib w) items
            {| out_items := []; files := fs; downloaded := 0 |}.

(** ** download_tibiawiki_assets.py *)

Definition API_URL : str := py "https://www.tibiawiki.com.br/api.php".

(** [s.split(sep)] for a separator of several characters: [skip] counts
    the characters of a separator just matched that are still to pass,
    [cur] is the field being read, reversed. *)
Fixpoint split_str_from (sep : str) (skip : nat) (cur : str) (s : str) : list str :=
  match s with
  | [] => [rev cur]
  | c :: r =>
      match skip with
      | S k => split_str_from sep k cur r
      | 0 =>
          if is_prefix sep s
          then rev cur :: split_str_from sep (length sep - 1) [] r
          else split_str_from sep 0 (c :: cur) r
      end
  end.

Definition split_str (sep s : str) : list str := split_str_from sep 0 [] s.

(** [unquote(path.split("/wiki/")[-1])] *)
Definition page_title (lib : library) (url : str) : str :=
  unquote lib (default [] (last (split_str (py "/wiki/") (url_path lib url)))).

(** [fetch_html]: the page itself unless the site answers 403, then the
    parse API *)
Definition fetch_html (lib : library) (w : site) (url : str) : result str :=
  r ← answered (get_page w url);
  if negb (p_status r =? 403)%Z then
    raise_for_status (p_status r);;
    Ok (p_text r)
  else
    let title := page_title lib url in
    api_r ← answered (get_parse w title);
    raise_for_status (q_status api_r);;
    html ← json (q_html api_r);
    match html with
    | Some (c :: h) => Ok (c :: h)
    | _ => Raise (RuntimeError
                    (py "Could not parse HTML for page '" ++ title ++ py "'."))
    end.

(** the first page whose [imageinfo] list starts with an entry that has a
    non-empty [url] *)
Fixpoint first_image_url (pages : list (list (option str))) : option str :=
  match pages with
  | [] => None
  | (Some (c :: u) :: _) :: _ => Some (c :: u)
  | _ :: rest => first_image_url rest
  end.

(** the loop over the namespaces in [mw_original_image_url] *)
Fixpoint image_url_in (w : site) (filename : str) (namespaces : list str)
  : result (option str) :=
  match namespaces with
  | [] => Ok None
  | ns :: rest =>
      r ← answered (get_imageinfo w (ns ++ filename));
      if (i_status r =? 403)%Z then Ok None
      else
        raise_for_status (i_status r);;
        pages ← json (i_pages r);
        match first_image_url pages with
        | Some u => Ok (Some u)
        | None => image_url_in w filename rest
        end
  end.

Definition mw_original_image_url (w : site) (filename : str) : result (option str) :=
  image_url_in w filename [py "Arquivo:"; py "File:"].

(** the first link of a row that has a text, is not a file or special
    link, and points into the wiki *)
Fixpoint chosen_link (links : list node) : option str :=
  match links with
  | [] => None
  | a :: rest =>
      let title := strip (default [] (attr (py "title") a)) in
      let href := default [] (attr (py "href") a) in
      let text := get_text [] a in
      if negb (nonempty text) then chosen_link rest
      else if existsb (fun p => is_prefix p title)
                [py "Arquivo:"; py "Image:"; py "Especial:"; py "Special:"]
      then chosen_link rest
      else if negb (contains (py "/wiki/") href) then chosen_link rest
      else Some text
  end.

(** the body of the loop over the rows in [extract_name_and_wiki_file] *)
Definition wiki_row (tr : node) : option (str * str) :=
  match find_with (py "img") (py "alt") tr with
  | None => None
  | Some img =>
      let wiki_file := strip (default [] (attr (py "alt") img)) in
      if negb (is_suffix (py ".gif") (lower wiki_file) ||
               is_suffix (py ".png") (lower wiki_file))
      then None
      else
        match chosen_link (find_all_with (py "a") (py "href") tr) with
        | None => None
        | Some chosen => Some (chosen, wiki_file)
        end
  end.

Definition extract_name_and_wiki_file (lib : library) (html : str) : list (str * str) :=
  omap wiki_row (find_all [py "tr"] (parse_html lib html)).

(** the index of [run_group]: a dictionary in insertion order *)
Abbreviation index := (list (str * entry)).

Definition in_index (name : str) (idx : index) : bool :=
  existsb (fun kv => str_eqb name kv.1) idx.

(** [row["sourceUrl"] = url] on the row stored under [name] *)
Definition set_source_url (name url : str) (idx : index) : index :=
  map (fun kv =>
         if str_eqb name kv.1
         then (kv.1, {| e_name := e_name kv.2; e_file := e_file kv.2;
                        e_sourceWikiFile := e_sourceWikiFile kv.2;
                        e_sourceUrl := url |})
         else kv) idx.

(** one turn of the loop over [pairs] *)
Definition add_pair (idx : index) (pair : str * str) : index :=
  let (name, wiki_file) := pair in
  if in_index name idx then idx
  else
    match build_fandom_gif_file name with
    | None => idx
    | Some fandom_file =>
        idx ++ [(name, {| e_name := name; e_file := fandom_file;
                          e_sourceWikiFile := wiki_file; e_sourceUrl := [] |})]
    end.

(** the loop over [page_urls]: a page that cannot be fetched ends the run *)
Fixpoint collect_pages (lib : library) (w : site) (page_urls : list str) (idx : index)
  : result index :=
  match page_urls with
  | [] => Ok idx
  | url :: rest =>
      html ← fetch_html lib w url;
      collect_pages lib w rest
        (fold_left add_pair (extract_name_and_wiki_file lib html) idx)
  end.

(** the order of Python strings: by code point, a prefix first *)
Fixpoint str_ltb (a b : str) : bool :=
  match a, b with
  | _, [] => false
  | [], _ :: _ => true
  | x :: a', y :: b' =>
      (code x <? code y) || ((code x =? code y) && str_ltb a' b')
  end.

(** [sorted(items, key=lambda x: x[0].lower())]: stable *)
Fixpoint insert_by_key (x : str * entry) (l : list (str * entry)) : list (str * entry) :=
  match l with
  | [] => [x]
  | y :: r =>
      if str_ltb (lower x.1) (lower y.1) then x :: l
      else y :: insert_by_key x r
  end.

Definition sorted_items (idx : index) : list (str * entry) :=
  fold_left (fun acc x => insert_by_key x acc) idx [].

(** [out_path.exists() and out_path.stat().st_size > 0] *)
Definition present (file : str) (fs : dir) : bool :=
  match fs !! file with
  | Some (_ :: _) => true
  | _ => false
  end.

(** the variables of the download loop of [run_group] *)
Record group : Type := {
  g_index : index;
  g_files : dir;
  g_downloaded : nat;
  g_skipped : nat
}.

(** one turn of the download loop: [None] for the looked-up address is
    written as the empty string *)
Definition group_step (w : site) (st : group) (item : str * entry) : result group :=
  let (name, row) := item in
  src_url ← mw_original_image_url w (e_sourceWikiFile row);
  let idx := set_source_url name (default [] src_url) (g_index st) in
  if present (e_file row) (g_files st)
  then Ok {| g_index := idx; g_files := g_files st;
             g_downloaded := g_downloaded st; g_skipped := g_skipped st |}
  else
    match src_url with
    | Some (c :: u) =>
        match download_wiki w (c :: u) (e_file row) (g_files st) with
        | (fs', Ok _) =>
            Ok {| g_index := idx; g_files := fs';
                  g_downloaded := S (g_downloaded st); g_skipped := g_skipped st |}
        | (fs', Raise _) =>
            Ok {| g_index := idx; g_files := fs';
                  g_downloaded := g_downloaded st; g_skipped := S (g_skipped st) |}
        end
    | _ =>
        Ok {| g_index := idx; g_files := g_files st;
              g_downloaded := g_downloaded st; g_skipped := S (g_skipped st) |}
    end.

Fixpoint group_loop (w : site) (items : list (str * entry)) (st : group) : result group :=
  match items with
  | [] => Ok st
  | item :: rest =>
      st' ← group_step w st item;
      group_loop w rest st'
  end.

(** the download loop over the sorted index: the mirror stage of
    [run_group] *)
Definition mirror_group (w : site) (idx : index) (fs : dir) : result group :=
  group_loop w (sorted_items idx)
             {| g_index := idx; g_files := fs; g_downloaded := 0; g_skipped := 0 |}.

(** [run_group], from the page addresses to the index written to
    index.json and the directory *)
Definition run_group (lib : library) (w : site) (page_urls : list str) (fs : dir)
  : result group :=
  idx ← collect_pages lib w page_urls [];
  mirror_group w idx fs.

(** ** The properties stated of the locator and of the loops *)



(** ** Sample documents *)

Definition el (t : string) (ks : list node) : node := Elem (py t) ∅ ks.
Definition txt (s : string) : node := Text (py s).
Definition th_ (s : string) : node := el "th" [txt s].
Definition td_ (s : string) : node := el "td" [txt s].









(** two rows with the same name *)
Definition repeated_name_page : node :=
  el "div" [el "table" [el "tr" [th_ "Points"; th_ "Name"; th_ "Description"; th_ "Grade"; th_ "ID"];
                        el "tr" [td_ "10"; td_ "Alpha"; td_ "first"; td_ "1"; td_ "7"];
                        el "tr" [td_ "20"; td_ "Alpha"; td_ "second"; td_ "2"; td_ "8"]]].

(** the record that a data row of the outfits table stands for, if any:
    enough cells, a name, an image in the designated column *)
Definition outfit_of_row (female_idx : nat) (tr : node) : option outfit :=
  let cells := find_all [py "td"; py "th"] tr in
  if length cells <=? female_idx then None
  else
    match cells !! 0, cells !! female_idx with
    | Some name_cell, Some female_cell =>
        if nonempty (outfit_name name_cell) then
          match pick_image_url_from_cell female_cell with
          | Some (c :: u) =>
              Some {| o_name := outfit_name name_cell; o_img_url := c :: u |}
          | _ => None
          end
        else None
    | _, _ => None
    end.

(** the key under which an outfit is remembered *)
Definition outfit_key (o : outfit) : str := lower (o_name o).

(** the scan after a new record *)
Definition record_outfit (st : scan) (o : outfit) : scan :=
  {| passed_header := true;
     seen := {[outfit_key o]} ∪ seen st;
     results := results st ++ [o] |}.

(** a row that ends the search for the header in [main] of the outfits
    script *)
Definition is_female_header (tr : node) : bool :=
  match find_all [py "th"] tr with
  | [] => false
  | ths => existsb (contains (py "female addons")) (header_texts ths)
  end.

(** the rows after the first such row *)
Fixpoint data_rows (rows : list node) : list node :=
  match rows with
  | [] => []
  | tr :: rest => if is_female_header tr then rest else data_rows rest
  end.

(** the first record of every key not in [seen0], in order *)
Fixpoint first_by_key (seen0 : gset str) (cands : list outfit) : list outfit :=
  match cands with
  | [] => []
  | o :: rest =>
      if bool_decide (outfit_key o ∈ seen0) then first_by_key seen0 rest
      else o :: first_by_key ({[outfit_key o]} ∪ seen0) rest
  end.

(** ** Sample sites *)

(** library functions for the samples: addresses are their own paths *)
Definition sample_library (page : node) (suffix : string) : library :=
  {| parse_html := fun _ => page;
     url_path := fun url => url;
     path_suffix := fun _ => py suffix;
     unquote := fun s => s |}.

(** a site that answers every page request with status 200 and an empty
    body *)
Definition empty_page_site : site :=
  {| get_page := fun _ => Some {| p_status := 200; p_text := [] |};
     get_parse := fun _ => None;
     get_imageinfo := fun _ => None;
     get_file := fun _ => None |}.

(** a site that denies every page request and renders every title through
    the parse API *)
Definition denying_site : site :=
  {| get_page := fun _ => Some {| p_status := 403; p_text := py "Forbidden" |};
     get_parse := fun title =>
       Some {| q_status := 200;
               q_html := Some (Some (py "<p>" ++ title ++ py "</p>")) |};
     get_imageinfo := fun _ => None;
     get_file := fun _ => None |}.

(** ** The properties stated of the mirror stages *)

(** the address recorded for a row: the empty string when the lookup gives
    none *)
Definition lookup_url (w : site) (row : entry) : str :=
  match mw_original_image_url w (e_sourceWikiFile row) with
  | Ok (Some u) => u
  | _ => []
  end.

(** a row of the index with its address recorded *)
Definition resolve (w : site) (kv : str * entry) : str * entry :=
  (kv.1, {| e_name := e_name kv.2; e_file := e_file kv.2;
            e_sourceWikiFile := e_sourceWikiFile kv.2;
            e_sourceUrl := lookup_url w kv.2 |}).

(** the rows under the keys [done] resolved, the others as they are *)
Definition resolve_keys (w : site) (done : list str) (idx : index) : index :=
  map (fun kv => if mem_str kv.1 done then resolve w kv else kv) idx.

(** a streamed request for [url] ends normally *)
Definition delivers (w : site) (url : str) : bool :=
  match get_file w url with
  | Some r =>
      match raise_for_status (f_status r) with
      | Ok _ => f_complete r
      | Raise _ => false
      end
  | None => false
  end.

(** the site never delivers an empty file *)
Definition no_empty_delivery (w : site) : Prop :=
  forall url r, get_file w url = Some r -> delivers w url = true -> f_body r <> [].

(** nothing is left to download for a row: its file is there, or its
    address, if it has one, is not delivered *)
Definition settled (w : site) (fs : dir) (row : entry) : Prop :=
  present (e_file row) fs = true \/
  forall c u, mw_original_image_url w (e_sourceWikiFile row) = Ok (Some (c :: u)) ->
              delivers w (c :: u) = false.

(** no image address is found for a mount *)
Definition mount_unresolved (lib : library) (w : site) (title : str) : Prop :=
  match api_parse_html w title with
  | Raise _ => True
  | Ok html => choose_best_image_from_page lib html = None
  end.

(** a page without image, a page with one *)
Definition imageless_page : node := el "p" [txt "no image"].

Definition image_page : node :=
  el "div" [Elem (py "img") {[ py "src" := py "https://static.example/War_Bear.gif" ]} []].

(** a site whose parse API renders every title and which delivers a small
    image for every file address *)
Definition image_site : site :=
  {| get_page := fun _ => None;
     get_parse := fun _ => Some {| q_status := 200; q_html := Some (Some (py "<html>")) |};
     get_imageinfo := fun _ => None;
     get_file := fun _ =>
       Some {| f_status := 200; f_content_type := py "image/gif";
               f_body := py "GIF89a"; f_complete := true |} |}.

(** a site whose file-info lookup finds an address for every file and
    which delivers a small image for every address *)
Definition creature_site : site :=
  {| get_page := fun _ => None;
     get_parse := fun _ => None;
     get_imageinfo := fun title =>
       Some {| i_status := 200;
               i_pages := Some [[Some (py "https://www.tibiawiki.com.br/images/" ++ title)]] |};
     get_file := fun _ =>
       Some {| f_status := 200; f_content_type := py "image/gif";
               f_body := py "GIF89a"; f_complete := true |} |}.

Definition rat_index : index :=
  fold_left add_pair [(py "Rat", py "Rat.gif"); (py "cave rat", py "Cave_Rat.gif")] [].


(** a site that denies every page request and answers the parse API with
    a body that is not JSON *)
Definition challenge_site : site :=
  {| get_page := fun _ => Some {| p_status := 403; p_text := py "Forbidden" |};
     get_parse := fun _ => Some {| q_status := 200; q_html := None |};
     get_imageinfo := fun _ => None;
     get_file := fun _ => None |}.

(** the creature site, delivering empty files *)
Definition empty_file_site : site :=
  {| get_page := get_page creature_site;
     get_parse := get_parse creature_site;
     get_imageinfo := get_imageinfo creature_site;
     get_file := fun _ =>
       Some {| f_status := 200; f_content_type := py "image/gif";
               f_body := []; f_complete := true |} |}.



(** ** The properties stated of the other functions *)



(** the address an [img] element offers: its [data-src] when that is not
    empty, else its [src] *)
Definition offers (img : node) (u : str) : Prop :=
  u <> [] /\
  (attr (py "data-src") img = Some u \/
   (truthy (attr (py "data-src") img) = false /\ attr (py "src") img = Some u)).

(** an answer that the fandom [download] accepts: no error status and an
    image content type *)
Definition image_answer (r : file_response) : Prop :=
  raise_for_status (f_status r) = Ok tt /\
  contains (py "image/") (lower (f_content_type r)) = true.

(** every entry of the index has its file in the directory *)
Definition indexed_files_exist (st : mirror) : Prop :=
  forall e, In e (out_items st) -> is_Some (files st !! e_file e).

(** the key of the sort in [run_group], and its order on the items *)
Definition sort_key (kv : str * entry) : str := lower kv.1.

Definition key_le (a b : str * entry) : Prop :=
  str_ltb (sort_key b) (sort_key a) = false.

(** the items sorted under the key [k] *)
Definition with_key (k : str) (l : list (str * entry)) : list (str * entry) :=
  List.filter (fun kv => str_eqb (sort_key kv) k) l.



(** the file-info answer for [filename] in the namespace [ns] holds the
    address [u]: no error status, a JSON body, and [u] the first address
    found in its pages *)
Definition info_holds (w : site) (ns filename : str) (u : option str) : Prop :=
  exists r pages,
    get_imageinfo w (ns ++ filename) = Some r /\
    raise_for_status (i_status r) = Ok tt /\
    i_pages r = Some pages /\
    first_image_url pages = u.

(** the file-info request for [filename] in the namespace [ns] is answered
    with status 403 *)
Definition info_denied (w : site) (ns filename : str) : Prop :=
  exists r, get_imageinfo w (ns ++ filename) = Some r /\ i_status r = 403%Z.



(** the items whose file is not in the directory, or is empty there *)
Definition absent_files (fs : dir) (items : list (str * entry)) : list (str * entry) :=
  List.filter (fun kv => negb (present (e_file kv.2) fs)) items.

(** a site that finds an address for every file and whose streams break
    after the first bytes *)
Definition broken_site : site :=
  {| get_page := get_page creature_site;
     get_parse := get_parse creature_site;
     get_imageinfo := get_imageinfo creature_site;
     get_file := fun _ =>
       Some {| f_status := 200; f_content_type := py "image/gif";
               f_body := py "GIF"; f_complete := false |} |}.

(** ** download_fandom_mounts.py: the category and [main] *)

(** an element of the [categorymembers] list: a JSON object with its
    [title], if it has one, or another JSON value; a title is read as a
    string *)
Inductive member : Type :=
| Dict (title : option str)
| NotDict.

(** the answer to a [list=categorymembers] request: [m_data] is [None] when
    the body is not JSON, else the list at query / categorymembers (empty
    when there is none) and the value at continue / cmcontinue *)
Record members_response : Type :=
  { m_status : Z; m_data : option (list member * option str) }.

(** the category listing of the site: the answer to the request with the
    given [cmcontinue], [None] for the request without one *)
Abbreviation category_api := (option str -> option members_response).












(** ** The index of the mounts and outfits scripts, entry by entry *)




(** * Theorems *)

(** running a bind of [result] once its first call is known *)
Ltac run_bind := cbn [mbind result_bind answered json].

Example safe_filename_ex1 :
  safe_filename (py "  War  Bear* (mount).png ") = py "War_Bear_(mount).png".
Proof. vm_compute. reflexivity. Qed.

Example safe_filename_ex2 : safe_filename (py " *?! ") = py "unknown".
Proof. vm_compute. reflexivity. Qed.

Example parse_int_ex1 : parse_int (py "15 [citation]") = Some 15%Z.
Proof. vm_compute. reflexivity. Qed.

Example parse_int_ex2 : parse_int (py "a - b -12x3") = Some (-12)%Z.
Proof. vm_compute. reflexivity. Qed.

Example parse_int_ex3 : parse_int (py "n/a") = None.
Proof. vm_compute. reflexivity. Qed.

Example gif_ex1 :
  build_fandom_gif_file (py "the voice of ruin") = Some (py "The_Voice_of_Ruin.gif").
Proof. vm_compute. reflexivity. Qed.

Example gif_ex2 :
  build_fandom_gif_file (py " The   Voice Of RUIN ") = Some (py "The_Voice_of_Ruin.gif").
Proof. vm_compute. reflexivity. Qed.

Example gif_ex3 :
  build_fandom_gif_file (py "jack-of-all trades") = Some (py "Jack-Of-All_Trades.gif").
Proof. vm_compute. reflexivity. Qed.

Example gif_ex4 : build_fandom_gif_file (py " ") = Some (py ".gif").
Proof. vm_compute. reflexivity. Qed.

(** ** Strings: stripping, splitting, substitution *)

Lemma drop_while_Forall (P : ascii -> Prop) p s :
  Forall P s -> Forall P (drop_while p s).
Proof.
  induction 1 as [|c r Hc Hr IH]; simpl; [constructor|].
  destruct (p c); [exact IH | constructor; assumption].
Qed.

Lemma strip_Forall (P : ascii -> Prop) s : Forall P s -> Forall P (strip s).
Proof.
  intros H. unfold strip, rstrip, lstrip.
  apply Forall_rev, drop_while_Forall, Forall_rev, drop_while_Forall, H.
Qed.


Lemma drop_while_all p s :
  Forall (fun c => p c = true) s -> drop_while p s = [].
Proof. induction 1 as [|c r Hc _ IH]; simpl; [|rewrite Hc]; auto. Qed.






















(** ** [safe_filename] *)

Lemma keep_not_space_allowed c :
  keep_char c = true -> is_space c = false -> allowed_char c = true.
Proof.
  unfold keep_char, allowed_char. intros H Hs. rewrite Hs in H.
  rewrite orb_false_r in H. exact H.
Qed.

Lemma sub_ws_underscore_allowed b s :
  Forall (fun c => keep_char c = true) s ->
  Forall (fun c => allowed_char c = true /\ is_space c = false)
         (sub_ws_from b (py "_") s).
Proof.
  intros H. revert b. induction H as [|c r Hc _ IH]; intros b; simpl; [constructor|].
  destruct (is_space c) eqn:Hs.
  - destruct b; [apply IH|]. constructor; [split; reflexivity | apply IH].
  - constructor; [|apply IH]. split; [apply keep_not_space_allowed; assumption | exact Hs].
Qed.

Lemma filter_keep_Forall s :
  Forall (fun c => keep_char c = true) (List.filter keep_char s).
Proof. apply List.Forall_forall. intros c Hc. apply filter_In in Hc. tauto. Qed.


(** ** [parse_int] *)








(** ** [build_fandom_gif_file] *)

Ltac by_cases_on_char c :=
  destruct c as [[] [] [] [] [] [] [] []]; vm_compute; reflexivity.












































(** ** The table locator *)

Lemma str_eqb_eq a b : str_eqb a b = true <-> a = b.
Proof. unfold str_eqb. rewrite bool_decide_eq_true. reflexivity. Qed.

Lemma mem_str_In x l : mem_str x l = true <-> In x l.
Proof.
  unfold mem_str. rewrite existsb_exists. split.
  - intros (y & Hy & E). apply str_eqb_eq in E. subst. exact Hy.
  - intros H. exists x. split; [exact H | apply str_eqb_eq; reflexivity].
Qed.







(** ** The rows of the achievements and outfits tables *)



Lemma nonempty_false s : nonempty s = false <-> s = [].
Proof. destruct s; simpl; split; congruence. Qed.






(** a turn of the outfits loop after the header row *)
Lemma outfit_step_passed female_idx st tr :
  passed_header st = true ->
  outfit_step female_idx st tr =
    match outfit_of_row female_idx tr with
    | Some o => if bool_decide (outfit_key o ∈ seen st) then st else record_outfit st o
    | None => st
    end.
Proof.
  intros Hp. unfold outfit_step, outfit_of_row. rewrite Hp. cbn [negb].
  destruct (length (find_all [py "td"; py "th"] tr) <=? female_idx); [reflexivity|].
  destruct (find_all [py "td"; py "th"] tr !! 0) as [name_cell|]; [|reflexivity].
  destruct (find_all [py "td"; py "th"] tr !! female_idx) as [female_cell|]; [|reflexivity].
  destruct (nonempty (outfit_name name_cell)); cbn [negb]; [|reflexivity].
  destruct (pick_image_url_from_cell female_cell) as [[|c u]|] eqn:Hpick;
    unfold outfit_key; cbn [o_name];
    destruct (bool_decide (lower (outfit_name name_cell) ∈ seen st)); reflexivity.
Qed.






(** ** Deduplication *)

Lemma outfit_step_before_header female_idx st tr :
  passed_header st = false ->
  outfit_step female_idx st tr =
    if is_female_header tr
    then {| passed_header := true; seen := seen st; results := results st |}
    else st.
Proof.
  intros Hp. unfold outfit_step, is_female_header. rewrite Hp. cbn [negb].
  destruct (find_all [py "th"] tr); reflexivity.
Qed.

Lemma outfit_fold_passed female_idx rows st :
  passed_header st = true ->
  results (fold_left (outfit_step female_idx) rows st) =
    results st ++ first_by_key (seen st) (omap (outfit_of_row female_idx) rows).
Proof.
  revert st. induction rows as [|tr rest IH]; intros st Hp.
  - cbn. rewrite app_nil_r. reflexivity.
  - cbn [fold_left omap list_omap]. rewrite (outfit_step_passed female_idx st tr Hp).
    destruct (outfit_of_row female_idx tr) as [o|]; [|apply IH, Hp].
    cbn [first_by_key].
    destruct (bool_decide (outfit_key o ∈ seen st)); [apply IH, Hp|].
    rewrite IH by reflexivity. cbn [record_outfit results seen].
    rewrite <- app_assoc. reflexivity.
Qed.

Lemma outfit_scan_results female_idx rows :
  results (outfit_scan female_idx rows) =
    first_by_key ∅ (omap (outfit_of_row female_idx) (data_rows rows)).
Proof.
  unfold outfit_scan.
  set (st0 := {| passed_header := false; seen := ∅; results := [] |}).
  assert (H0 : passed_header st0 = false /\ seen st0 = ∅ /\ results st0 = [])
    by (repeat split).
  induction rows as [|tr rest IH]; [reflexivity|].
  cbn [fold_left data_rows].
  rewrite (outfit_step_before_header female_idx st0 tr (proj1 H0)).
  destruct (is_female_header tr); [|exact IH].
  rewrite outfit_fold_passed by reflexivity. reflexivity.
Qed.

Lemma first_by_key_fresh seen0 cands o :
  In o (first_by_key seen0 cands) -> outfit_key o ∉ seen0.
Proof.
  revert seen0. induction cands as [|c rest IH]; intros seen0; [intros []|].
  cbn [first_by_key]. destruct (bool_decide (outfit_key c ∈ seen0)) eqn:E.
  - apply IH.
  - apply bool_decide_eq_false in E. intros [<-|Hin]; [exact E|].
    apply IH in Hin. set_solver.
Qed.

Lemma first_by_key_NoDup seen0 cands :
  NoDup (map outfit_key (first_by_key seen0 cands)).
Proof.
  revert seen0. induction cands as [|c rest IH]; intros seen0; [constructor|].
  cbn [first_by_key]. destruct (bool_decide (outfit_key c ∈ seen0)); [apply IH|].
  cbn [map]. apply NoDup_cons. split; [|apply IH].
  intros Hin. apply list_elem_of_In, in_map_iff in Hin.
  destruct Hin as (o & Hk & Ho). apply first_by_key_fresh in Ho.
  rewrite Hk in Ho. set_solver.
Qed.

Lemma first_by_key_sublist seen0 cands :
  first_by_key seen0 cands `sublist_of` cands.
Proof.
  revert seen0. induction cands as [|c rest IH]; intros seen0; [constructor|].
  cbn [first_by_key]. destruct (bool_decide (outfit_key c ∈ seen0)).
  - apply sublist_cons, IH.
  - apply sublist_skip, IH.
Qed.

Lemma first_by_key_covers seen0 cands c :
  In c cands ->
  outfit_key c ∈ seen0 \/
  exists o, In o (first_by_key seen0 cands) /\ outfit_key o = outfit_key c.
Proof.
  revert seen0. induction cands as [|c0 rest IH]; intros seen0; [intros []|].
  cbn [first_by_key]. intros [->|Hin].
  - destruct (bool_decide (outfit_key c ∈ seen0)) eqn:E.
    + left. apply bool_decide_eq_true in E. exact E.
    + right. exists c. split; [left; reflexivity | reflexivity].
  - destruct (bool_decide (outfit_key c0 ∈ seen0)) eqn:E.
    + apply IH, Hin.
    + destruct (IH ({[outfit_key c0]} ∪ seen0) Hin) as [Hs|(o & Ho & Hk)].
      * apply elem_of_union in Hs. destruct Hs as [Hs|Hs]; [|left; exact Hs].
        apply elem_of_singleton in Hs. right. exists c0.
        split; [left; reflexivity | symmetry; exact Hs].
      * right. exists o. split; [right; exact Ho | exact Hk].
Qed.

Lemma first_by_key_first seen0 cands o :
  In o (first_by_key seen0 cands) ->
  exists pre post,
    cands = pre ++ o :: post /\
    forall p, In p pre -> outfit_key p <> outfit_key o.
Proof.
  revert seen0. induction cands as [|c rest IH]; intros seen0; [intros []|].
  cbn [first_by_key]. destruct (bool_decide (outfit_key c ∈ seen0)) eqn:E.
  - intros Hin. pose proof (first_by_key_fresh _ _ _ Hin) as Hfresh.
    apply bool_decide_eq_true in E.
    destruct (IH _ Hin) as (pre & post & -> & Hpre).
    exists (c :: pre), post. split; [reflexivity|].
    intros p [<-|Hp]; [|apply Hpre, Hp]. intros Hk. rewrite Hk in E. contradiction.
  - intros [<-|Hin].
    + exists [], rest. split; [reflexivity|]. intros p [].
    + pose proof (first_by_key_fresh _ _ _ Hin) as Hfresh.
      destruct (IH _ Hin) as (pre & post & -> & Hpre).
      exists (c :: pre), post. split; [reflexivity|].
      intros p [<-|Hp]; [|apply Hpre, Hp]. intros Hk. apply Hfresh.
      rewrite <- Hk. set_solver.
Qed.

Lemma outfits_mirror_sublist lib w items st :
  exists added,
    out_items (fold_left (outfit_mirror_step lib w) items st) = out_items st ++ added /\
    map e_name added `sublist_of` map o_name items.
Proof.
  revert st. induction items as [|item rest IH]; intros st.
  - exists []. split; [cbn; rewrite app_nil_r; reflexivity | constructor].
  - cbn [fold_left]. destruct (IH (outfit_mirror_step lib w st item)) as (added & E & Hsub).
    rewrite E. unfold outfit_mirror_step.
    destruct (download_fandom w (o_img_url item) _ (files st)) as [fs' [u|e]];
      cbn [out_items].
    + eexists (_ :: added). rewrite <- app_assoc. split; [reflexivity|].
      cbn [map e_name]. apply sublist_skip, Hsub.
    + exists added. split; [reflexivity|]. cbn [map]. apply sublist_cons, Hsub.
Qed.

Lemma in_index_In name idx : in_index name idx = true <-> In name (map fst idx).
Proof.
  unfold in_index. rewrite existsb_exists, in_map_iff. split.
  - intros (kv & Hin & E). apply str_eqb_eq in E. exists kv. split; [symmetry; exact E | exact Hin].
  - intros (kv & E & Hin). exists kv. split; [exact Hin | apply str_eqb_eq; symmetry; exact E].
Qed.

Lemma build_fandom_gif_file_some name :
  name <> [] -> exists f, build_fandom_gif_file name = Some f.
Proof. destruct name; [contradiction|]. intros _. eexists. reflexivity. Qed.

(** what [add_pair] does to the index *)
Lemma add_pair_cases idx name wiki_file :
  (add_pair idx (name, wiki_file) = idx /\ (In name (map fst idx) \/ name = [])) \/
  (exists f, build_fandom_gif_file name = Some f /\
     ~ In name (map fst idx) /\ name <> [] /\
     add_pair idx (name, wiki_file) =
       idx ++ [(name, {| e_name := name; e_file := f;
                         e_sourceWikiFile := wiki_file; e_sourceUrl := [] |})]).
Proof.
  unfold add_pair. destruct (in_index name idx) eqn:Hin.
  - left. split; [reflexivity|]. left. apply in_index_In, Hin.
  - destruct name as [|c r].
    + left. split; [reflexivity | right; reflexivity].
    + right. eexists. split; [reflexivity|]. split; [|split; [discriminate | reflexivity]].
      intros H. apply in_index_In in H. congruence.
Qed.

Lemma add_pairs_NoDup (pairs : list (str * str)) (idx : index) :
  NoDup (map fst idx) -> NoDup (map fst (fold_left add_pair pairs idx)).
Proof.
  revert idx. induction pairs as [|[name wf] rest IH]; intros idx Hnd; [exact Hnd|].
  cbn [fold_left]. apply IH.
  destruct (add_pair_cases idx name wf) as [[E _]|(f & _ & Hnew & _ & E)];
    rewrite E; [exact Hnd|].
  rewrite map_app. cbn [map fst]. apply NoDup_app. split; [exact Hnd|].
  split; [|apply NoDup_singleton].
  intros x Hx Hx'. apply list_elem_of_singleton in Hx'. subst x.
  apply Hnew, list_elem_of_In, Hx.
Qed.

Lemma add_pairs_keeps (pairs : list (str * str)) (idx : index) (kv : str * entry) :
  In kv idx -> In kv (fold_left add_pair pairs idx).
Proof.
  revert idx. induction pairs as [|[name wf] rest IH]; intros idx Hin; [exact Hin|].
  cbn [fold_left]. apply IH.
  destruct (add_pair_cases idx name wf) as [[E _]|(f & _ & _ & _ & E)];
    rewrite E; [exact Hin|].
  apply in_or_app. left. exact Hin.
Qed.

Lemma add_pairs_covers (pairs : list (str * str)) (idx : index) (name wf : str) :
  In (name, wf) pairs -> name <> [] ->
  In name (map fst (fold_left add_pair pairs idx)).
Proof.
  revert idx. induction pairs as [|[n0 wf0] rest IH]; intros idx; [intros []|].
  intros [E|Hin] Hne; cbn [fold_left]; [|apply IH; assumption].
  injection E as -> ->.
  destruct (add_pair_cases idx name wf) as [[E1 [Hk|Hk]]|(f & _ & _ & _ & E1)];
    rewrite ?E1.
  - apply in_map_iff in Hk. destruct Hk as (kv & <- & Hkv).
    apply in_map, add_pairs_keeps, Hkv.
  - contradiction.
  - apply in_map_iff. eexists (name, _). split; [reflexivity|].
    apply add_pairs_keeps, in_or_app. right. left. reflexivity.
Qed.

Lemma add_pairs_first (pairs : list (str * str)) (idx : index) (k : str) (e : entry) :
  In (k, e) (fold_left add_pair pairs idx) ->
  In (k, e) idx \/
  (k <> [] /\ ~ In k (map fst idx) /\
   e_name e = k /\ build_fandom_gif_file k = Some (e_file e) /\ e_sourceUrl e = [] /\
   exists pre post,
     pairs = pre ++ (k, e_sourceWikiFile e) :: post /\
     forall p, In p pre -> p.1 <> k).
Proof.
  revert idx. induction pairs as [|[name wf] rest IH]; intros idx; [left; assumption|].
  cbn [fold_left]. intros Hin. apply IH in Hin.
  destruct (add_pair_cases idx name wf) as [[E Hold]|(f & Hf & Hnew & Hne & E)];
    rewrite E in Hin.
  - destruct Hin as [Hin|(Hk & Hfresh & H1 & H2 & H3 & pre & post & -> & Hpre)];
      [left; exact Hin|].
    right. repeat (split; [assumption|]).
    exists ((name, wf) :: pre), post. split; [reflexivity|].
    intros p [<-|Hp]; [|apply Hpre, Hp]. cbn [fst].
    destruct Hold as [Hold|Hold]; congruence.
  - destruct Hin as [Hin|(Hk & Hfresh & H1 & H2 & H3 & pre & post & -> & Hpre)].
    + apply in_app_or in Hin. destruct Hin as [Hin|[Hin|[]]]; [left; exact Hin|].
      injection Hin as <- <-. right. cbn.
      repeat (split; [assumption || reflexivity|]).
      exists [], rest. split; [reflexivity|]. intros p [].
    + right. rewrite map_app, in_app_iff in Hfresh. cbn [map fst] in Hfresh.
      split; [exact Hk|]. split; [tauto|]. repeat (split; [assumption|]).
      exists ((name, wf) :: pre), post. split; [reflexivity|].
      intros p [<-|Hp]; [|apply Hpre, Hp]. cbn [fst]. intros ->.
      apply Hfresh. right. left. reflexivity.
Qed.

Lemma collect_pages_NoDup lib w urls idx idx' :
  collect_pages lib w urls idx = Ok idx' ->
  NoDup (map fst idx) -> NoDup (map fst idx').
Proof.
  revert idx. induction urls as [|url rest IH]; intros idx; cbn [collect_pages].
  - intros E. injection E as <-. trivial.
  - destruct (fetch_html lib w url) as [html|e]; run_bind; [|discriminate].
    intros E Hnd. apply (IH _ E), add_pairs_NoDup, Hnd.
Qed.

Lemma set_source_url_keys name url idx :
  map fst (set_source_url name url idx) = map fst idx.
Proof.
  unfold set_source_url. rewrite map_map. apply map_ext.
  intros [k e]. cbn [fst snd]. destruct (str_eqb name k); reflexivity.
Qed.

Lemma group_step_keys w st item st' :
  group_step w st item = Ok st' ->
  map fst (g_index st') = map fst (g_index st).
Proof.
  unfold group_step. destruct item as [name row].
  destruct (mw_original_image_url w (e_sourceWikiFile row)) as [src|e]; run_bind;
    [|discriminate].
  destruct (present (e_file row) (g_files st)).
  - intros E. injection E as <-. apply set_source_url_keys.
  - destruct src as [[|c u]|];
      try (intros E; injection E as <-; apply set_source_url_keys).
    destruct (download_wiki w (c :: u) (e_file row) (g_files st)) as [fs' [x|e]];
      intros E; injection E as <-; apply set_source_url_keys.
Qed.

Lemma group_loop_keys w items st st' :
  group_loop w items st = Ok st' ->
  map fst (g_index st') = map fst (g_index st).
Proof.
  revert st. induction items as [|item rest IH]; intros st; cbn [group_loop].
  - intros E. injection E as <-. reflexivity.
  - destruct (group_step w st item) as [st1|e] eqn:Hs; run_bind; [|discriminate].
    intros E. rewrite (IH _ E). apply (group_step_keys _ _ _ _ Hs).
Qed.

Lemma run_group_NoDup lib w urls fs g :
  run_group lib w urls fs = Ok g -> NoDup (map fst (g_index g)).
Proof.
  unfold run_group, mirror_group.
  destruct (collect_pages lib w urls []) as [idx|e] eqn:Hc; run_bind; [|discriminate].
  intros E. rewrite (group_loop_keys _ _ _ _ E). cbn [g_index].
  apply (collect_pages_NoDup _ _ _ _ _ Hc). constructor.
Qed.

(** C4, as the code has it.  In the outfits harvest the recorded rows have
    distinct names up to letter case: the records are, in order, the first
    row of every lower-cased name among the rows that have a name and an
    image, and the index written holds a part of them.  In the creatures
    harvest the keys of the index are distinct, every named pair is
    represented, and an entry comes from the first pair with its name. *)
Theorem index_first_occurrence :
  (forall female_idx rows,
     let cands := omap (outfit_of_row female_idx) (data_rows rows) in
     let res := results (outfit_scan female_idx rows) in
     NoDup (map outfit_key res) /\
     res `sublist_of` cands /\
     (forall c, In c cands -> exists o, In o res /\ outfit_key o = outfit_key c) /\
     (forall o, In o res ->
        exists pre post,
          cands = pre ++ o :: post /\
          forall p, In p pre -> outfit_key p <> outfit_key o)) /\
  (forall lib w female_idx rows fs,
     let res := results (outfit_scan female_idx rows) in
     map e_name (out_items (outfits_mirror lib w res fs)) `sublist_of` map o_name res /\
     NoDup (map (fun e => lower (e_name e)) (out_items (outfits_mirror lib w res fs)))) /\
  (forall pairs,
     let idx := fold_left add_pair pairs [] in
     NoDup (map fst idx) /\
     (forall name wiki_file,
        In (name, wiki_file) pairs -> name <> [] -> In name (map fst idx)) /\
     (forall k e, In (k, e) idx ->
        e_name e = k /\
        exists pre post,
          pairs = pre ++ (k, e_sourceWikiFile e) :: post /\
          forall p, In p pre -> p.1 <> k)) /\
  (forall lib w page_urls fs g,
     run_group lib w page_urls fs = Ok g -> NoDup (map fst (g_index g))).
Proof.
  split; [|split; [|split]].
  - intros idx rows cands res. subst cands res. rewrite outfit_scan_results.
    split; [apply first_by_key_NoDup|]. split; [apply first_by_key_sublist|].
    split.
    + intros c Hc. destruct (first_by_key_covers ∅ _ c Hc) as [H|H]; [set_solver | exact H].
    + apply first_by_key_first.
  - intros lib w idx rows fs res.
    destruct (outfits_mirror_sublist lib w res
                {| out_items := []; files := fs; downloaded := 0 |}) as (added & E & Hsub).
    unfold outfits_mirror. rewrite E. cbn [out_items app].
    split; [exact Hsub|].
    assert (Hnd : NoDup (map lower (map o_name res))).
    { subst res. rewrite outfit_scan_results, map_map. apply first_by_key_NoDup. }
    rewrite <- (map_map e_name lower).
    pose proof (fmap_sublist lower _ _ Hsub) as Hs.
    exact (sublist_NoDup _ _ Hnd Hs).
  - intros pairs idx. subst idx. split; [apply add_pairs_NoDup; constructor|].
    split; [intros name wf; apply add_pairs_covers|].
    intros k e Hin. apply add_pairs_first in Hin.
    destruct Hin as [[]|(_ & _ & Hn & _ & _ & Hfirst)]. split; assumption.
  - exact run_group_NoDup.
Qed.

(** C4, as the spec has it, fails: the achievements list keeps both rows of
    a repeated name. *)
Lemma achievements_keep_repeated_names :
  exists out,
    achievements_main repeated_name_page = Ok out /\
    map a_name out = [py "Alpha"; py "Alpha"] /\
    map a_description out = [py "first"; py "second"] /\
    ~ NoDup (map a_name out).
Proof.
  eexists. split; [vm_compute; reflexivity|].
  split; [reflexivity|]. split; [reflexivity|].
  cbn [map a_name]. intros H. apply NoDup_cons in H. destruct H as [H _].
  apply H. left.
Qed.

Lemma index_first_occurrence_witness :
  In (py "Rat")
     (map fst (fold_left add_pair
                 [(py "Rat", py "Rat.gif"); (py "Rat", py "Cave_Rat.gif")] [])).
Proof.
  destruct index_first_occurrence as (_ & _ & Hpairs & _).
  destruct (Hpairs [(py "Rat", py "Rat.gif"); (py "Rat", py "Cave_Rat.gif")])
    as (_ & Hcovers & _).
  apply (Hcovers (py "Rat") (py "Rat.gif")); [left; reflexivity | discriminate].
Defined.

(** ** [fetch_html] *)

Example page_title_ex :
  page_title (sample_library (Text []) "") (py "https://www.tibiawiki.com.br/wiki/Bosses")
  = py "Bosses".
Proof. vm_compute. reflexivity. Qed.

(** C9, as the code has it.  When the page request is answered 403,
    [fetch_html] asks the parse API for the title taken from the path of the
    address: it returns the HTML of the answer when there is one, raises an
    error that names the title when the answer is well formed and has none,
    and never returns the empty string.  When the page request is answered
    otherwise, it raises on an error status and else returns the body as it
    is. *)
Theorem fetch_html_fallback (lib : library) (w : site) (url : str) (r : page_response) :
  get_page w url = Some r ->
  (p_status r = 403%Z ->
     (forall api_r h,
        get_parse w (page_title lib url) = Some api_r ->
        raise_for_status (q_status api_r) = Ok tt ->
        q_html api_r = Some (Some h) -> h <> [] ->
        fetch_html lib w url = Ok h) /\
     (forall api_r,
        get_parse w (page_title lib url) = Some api_r ->
        raise_for_status (q_status api_r) = Ok tt ->
        q_html api_r = Some None \/ q_html api_r = Some (Some []) ->
        fetch_html lib w url =
          Raise (RuntimeError (py "Could not parse HTML for page '" ++
                               page_title lib url ++ py "'."))) /\
     (forall h, fetch_html lib w url = Ok h ->
        h <> [] /\
        exists api_r, get_parse w (page_title lib url) = Some api_r /\
                      q_html api_r = Some (Some h))) /\
  (p_status r <> 403%Z ->
     fetch_html lib w url =
       match raise_for_status (p_status r) with
       | Raise e => Raise e
       | Ok _ => Ok (p_text r)
       end).
Proof.
  intros Hr. unfold fetch_html. rewrite Hr. run_bind. split.
  - intros H403. rewrite H403. cbn [Z.eqb Pos.eqb negb].
    split; [|split].
    + intros api_r h Hapi Hst Hh Hne. rewrite Hapi. run_bind.
      rewrite Hst, Hh. run_bind. destruct h; [contradiction | reflexivity].
    + intros api_r Hapi Hst [Hh|Hh]; rewrite Hapi; run_bind; rewrite Hst, Hh;
        reflexivity.
    + intros h. destruct (get_parse w (page_title lib url)) as [api_r|]; run_bind;
        [|discriminate].
      destruct (raise_for_status (q_status api_r)); run_bind; [|discriminate].
      destruct (q_html api_r) as [[[|c h']|]|] eqn:Hh; run_bind; try discriminate.
      intros E. injection E as <-. split; [discriminate|].
      exists api_r. split; [reflexivity | exact Hh].
  - intros Hne. apply Z.eqb_neq in Hne. rewrite Hne. cbn [negb].
    destruct (raise_for_status (p_status r)); reflexivity.
Qed.

Lemma fetch_html_fallback_witness :
  fetch_html (sample_library (Text []) "") denying_site
             (py "https://www.tibiawiki.com.br/wiki/Bosses")
  = Ok (py "<p>Bosses</p>").
Proof.
  destruct (fetch_html_fallback (sample_library (Text []) "") denying_site
              (py "https://www.tibiawiki.com.br/wiki/Bosses")
              {| p_status := 403; p_text := py "Forbidden" |} eq_refl)
    as [Hdenied _].
  destruct (Hdenied eq_refl) as (Hhtml & _).
  apply (Hhtml {| q_status := 200; q_html := Some (Some (py "<p>Bosses</p>")) |}).
  - vm_compute. reflexivity.
  - reflexivity.
  - reflexivity.
  - discriminate.
Defined.

(** C9, as the spec has it, fails: a page answered with status 200 and an
    empty body yields no HTML on the first path, the second path is not
    tried, and [fetch_html] returns the empty string; and when the page is
    denied and the parse API answers with a body that is not JSON, the
    error raised names no page. *)
Lemma fetch_html_returns_empty_body :
  get_page empty_page_site (py "https://www.tibiawiki.com.br/wiki/Bosses")
    = Some {| p_status := 200; p_text := [] |} /\
  fetch_html (sample_library (Text []) "") empty_page_site
             (py "https://www.tibiawiki.com.br/wiki/Bosses") = Ok [] /\
  fetch_html (sample_library (Text []) "") challenge_site
             (py "https://www.tibiawiki.com.br/wiki/Bosses") = Raise JSONDecodeError.
Proof. repeat split; reflexivity. Qed.

(** ** The mirror stage of the creatures script *)

Lemma insert_by_key_Permutation x l : Permutation (insert_by_key x l) (x :: l).
Proof.
  induction l as [|y r IH]; cbn [insert_by_key]; [reflexivity|].
  destruct (str_ltb (lower x.1) (lower y.1)); [reflexivity|].
  rewrite IH. apply perm_swap.
Qed.

Lemma sorted_items_Permutation idx : Permutation (sorted_items idx) idx.
Proof.
  unfold sorted_items.
  assert (H : forall acc, Permutation (fold_left (fun a x => insert_by_key x a) idx acc)
                                      (idx ++ acc)).
  { induction idx as [|x r IH]; intros acc; cbn [fold_left app]; [reflexivity|].
    rewrite IH, insert_by_key_Permutation. apply Permutation_sym, Permutation_middle. }
  rewrite H, app_nil_r. reflexivity.
Qed.

Lemma NoDup_keys_functional (idx : index) k a b :
  NoDup (map fst idx) -> In (k, a) idx -> In (k, b) idx -> a = b.
Proof.
  induction idx as [|[k0 e0] rest IH]; [intros _ []|].
  cbn [map fst]. intros Hnd. apply NoDup_cons in Hnd. destruct Hnd as [Hfresh Hnd].
  intros [Ea|Ha] [Eb|Hb].
  - congruence.
  - injection Ea as -> _. exfalso. apply Hfresh, list_elem_of_In.
    apply (in_map fst _ (k, b)), Hb.
  - injection Eb as -> _. exfalso. apply Hfresh, list_elem_of_In.
    apply (in_map fst _ (k, a)), Ha.
  - apply IH; assumption.
Qed.

Lemma lookup_url_default w row src :
  mw_original_image_url w (e_sourceWikiFile row) = Ok src ->
  default [] src = lookup_url w row.
Proof. intros H. unfold lookup_url. rewrite H. destruct src; reflexivity. Qed.

Lemma str_eqb_false a b : str_eqb a b = false <-> a <> b.
Proof. unfold str_eqb. rewrite bool_decide_eq_false. reflexivity. Qed.

Lemma str_eqb_sym a b : str_eqb a b = str_eqb b a.
Proof.
  destruct (str_eqb b a) eqn:E.
  - apply str_eqb_eq in E. apply str_eqb_eq. congruence.
  - apply str_eqb_false in E. apply str_eqb_false. congruence.
Qed.

(** recording the address of one more row *)
Lemma set_source_url_resolve w (idx : index) done name row src :
  NoDup (map fst idx) ->
  In (name, row) idx ->
  mw_original_image_url w (e_sourceWikiFile row) = Ok src ->
  set_source_url name (default [] src) (resolve_keys w done idx) =
  resolve_keys w (name :: done) idx.
Proof.
  intros Hnd Hin Hsrc. unfold set_source_url, resolve_keys.
  rewrite map_map. apply map_ext_in. intros [k e] Hk.
  cbn [mem_str existsb fst snd].
  assert (Hfst : (if mem_str k done then resolve w (k, e) else (k, e)).1 = k)
    by (destruct (mem_str k done); reflexivity).
  fold (mem_str k done). rewrite Hfst, (str_eqb_sym k name).
  destruct (str_eqb name k) eqn:E; cbn [orb]; [|reflexivity].
  apply str_eqb_eq in E. subst k.
  assert (e = row) by (eapply NoDup_keys_functional; eassumption). subst e.
  rewrite (lookup_url_default w row src Hsrc).
  destruct (mem_str name done); reflexivity.
Qed.

(** what a turn of the download loop does to the index *)
Lemma group_step_index w st name row st' :
  group_step w st (name, row) = Ok st' ->
  exists src,
    mw_original_image_url w (e_sourceWikiFile row) = Ok src /\
    g_index st' = set_source_url name (default [] src) (g_index st).
Proof.
  unfold group_step.
  destruct (mw_original_image_url w (e_sourceWikiFile row)) as [src|e]; run_bind;
    [|discriminate].
  intros H. exists src. split; [reflexivity|].
  destruct (present (e_file row) (g_files st)); [injection H as <-; reflexivity|].
  destruct src as [[|c u]|]; try (injection H as <-; reflexivity).
  destruct (download_wiki w (c :: u) (e_file row) (g_files st)) as [fs' [x|e]];
    injection H as <-; reflexivity.
Qed.

(** a turn of the download loop ends normally exactly when the lookup
    does *)
Lemma group_step_ok w st name row src :
  mw_original_image_url w (e_sourceWikiFile row) = Ok src ->
  exists st', group_step w st (name, row) = Ok st'.
Proof.
  intros H. unfold group_step. rewrite H. run_bind.
  destruct (present (e_file row) (g_files st)); [eexists; reflexivity|].
  destruct src as [[|c u]|]; try (eexists; reflexivity).
  destruct (download_wiki w (c :: u) (e_file row) (g_files st)) as [fs' [x|e]];
    eexists; reflexivity.
Qed.

Lemma group_loop_resolves w (idx : index) items done st st' :
  NoDup (map fst idx) ->
  (forall kv, In kv items -> In kv idx) ->
  g_index st = resolve_keys w done idx ->
  group_loop w items st = Ok st' ->
  g_index st' = resolve_keys w (rev (map fst items) ++ done) idx.
Proof.
  intros Hnd. revert done st.
  induction items as [|[name row] rest IH]; intros done st Hsub Hidx; cbn [group_loop].
  - intros E. injection E as <-. exact Hidx.
  - destruct (group_step w st (name, row)) as [st1|e] eqn:Hstep; run_bind;
    [|discriminate].
    intros Hloop.
    destruct (group_step_index w st name row st1 Hstep) as (src & Hsrc & Hidx1).
    rewrite Hidx in Hidx1.
    rewrite (set_source_url_resolve w idx done name row src Hnd
               (Hsub _ (or_introl eq_refl)) Hsrc) in Hidx1.
    rewrite (IH (name :: done) st1 (fun kv H => Hsub kv (or_intror H)) Hidx1 Hloop).
    cbn [map fst rev]. rewrite <- app_assoc. reflexivity.
Qed.

Lemma resolve_keys_nil w idx : resolve_keys w [] idx = idx.
Proof.
  unfold resolve_keys. rewrite <- (map_id idx) at 2. apply map_ext. reflexivity.
Qed.

Lemma resolve_keys_all w done (idx : index) :
  (forall kv, In kv idx -> In kv.1 done) ->
  resolve_keys w done idx = map (resolve w) idx.
Proof.
  intros H. unfold resolve_keys. apply map_ext_in. intros kv Hkv.
  apply H, mem_str_In in Hkv. rewrite Hkv. reflexivity.
Qed.

(** the index written by the mirror stage *)
Lemma mirror_group_index w (idx : index) fs g :
  NoDup (map fst idx) ->
  mirror_group w idx fs = Ok g ->
  g_index g = map (resolve w) idx.
Proof.
  intros Hnd H. unfold mirror_group in H.
  pose proof (sorted_items_Permutation idx) as Hperm.
  assert (Hsub : forall kv, In kv (sorted_items idx) -> In kv idx)
    by (intros kv Hkv; apply (Permutation_in _ Hperm), Hkv).
  rewrite (group_loop_resolves w idx (sorted_items idx) []
             {| g_index := idx; g_files := fs; g_downloaded := 0; g_skipped := 0 |}
             g Hnd Hsub (eq_sym (resolve_keys_nil w idx)) H).
  apply resolve_keys_all. intros kv Hkv. rewrite app_nil_r.
  apply in_rev. rewrite rev_involutive. apply in_map.
  apply (Permutation_in _ (Permutation_sym Hperm)), Hkv.
Qed.

Lemma group_loop_ok w items st :
  (forall kv, In kv items ->
     exists src, mw_original_image_url w (e_sourceWikiFile kv.2) = Ok src) ->
  exists st', group_loop w items st = Ok st'.
Proof.
  revert st. induction items as [|[name row] rest IH]; intros st H; cbn [group_loop].
  - eexists. reflexivity.
  - destruct (H (name, row) (or_introl eq_refl)) as (src & Hsrc).
    destruct (group_step_ok w st name row src Hsrc) as (st1 & ->). run_bind.
    apply IH. intros kv Hkv. apply H. right. exact Hkv.
Qed.

Lemma mirror_group_ok w (idx : index) fs :
  (forall kv, In kv idx ->
     exists src, mw_original_image_url w (e_sourceWikiFile kv.2) = Ok src) ->
  exists g, mirror_group w idx fs = Ok g.
Proof.
  intros H. apply group_loop_ok. intros kv Hkv. apply H.
  apply (Permutation_in _ (sorted_items_Permutation idx)), Hkv.
Qed.

Lemma run_group_index lib w page_urls fs g :
  run_group lib w page_urls fs = Ok g ->
  exists idx,
    collect_pages lib w page_urls [] = Ok idx /\
    NoDup (map fst idx) /\
    g_index g = map (resolve w) idx.
Proof.
  unfold run_group.
  destruct (collect_pages lib w page_urls []) as [idx|e] eqn:Hc; run_bind;
    [|discriminate].
  intros H. exists idx. split; [reflexivity|].
  assert (Hnd : NoDup (map fst idx))
    by (apply (collect_pages_NoDup _ _ _ _ _ Hc); constructor).
  split; [exact Hnd | exact (mirror_group_index w idx fs g Hnd H)].
Qed.

(** ** The mirror stage of the mounts script *)

Lemma image_source_nonempty img u : image_source img = Some u -> u <> [].
Proof.
  unfold image_source.
  destruct (truthy (attr (py "data-src") img)) eqn:H1.
  - intros E. rewrite E in H1. destruct u; [discriminate H1 | discriminate].
  - destruct (truthy (attr (py "src") img)) eqn:H2; [|discriminate].
    intros E. rewrite E in H2. destruct u; [discriminate H2 | discriminate].
Qed.

Lemma choose_best_image_nonempty lib html u :
  choose_best_image_from_page lib html = Some u -> u <> [].
Proof.
  unfold choose_best_image_from_page.
  destruct (select_infobox_img (parse_html lib html)) as [fig|].
  - destruct (image_source fig) as [v|] eqn:Hv.
    + intros E. injection E as <-. exact (image_source_nonempty _ _ Hv).
    + destruct (find (py "img") (parse_html lib html)) as [img|]; [|discriminate].
      apply image_source_nonempty.
  - destruct (find (py "img") (parse_html lib html)) as [img|]; [|discriminate].
    apply image_source_nonempty.
Qed.

Lemma mount_step_unresolved lib w st title :
  mount_unresolved lib w title -> mount_step lib w st title = st.
Proof.
  unfold mount_unresolved, mount_step.
  destruct (api_parse_html w title) as [html|e]; [|reflexivity].
  intros ->. reflexivity.
Qed.

(** what a turn of the loop over the titles does to the index *)
Lemma mount_step_items lib w st title :
  out_items (mount_step lib w st title) = out_items st \/
  exists e,
    out_items (mount_step lib w st title) = out_items st ++ [e] /\
    e_name e = title /\ e_sourceUrl e <> [] /\ ~ mount_unresolved lib w title.
Proof.
  unfold mount_step, mount_unresolved, normalize_image_url.
  destruct (api_parse_html w title) as [html|e]; [|left; reflexivity].
  destruct (choose_best_image_from_page lib html) as [u|] eqn:Hu; [|left; reflexivity].
  cbv zeta.
  destruct (download_fandom w u _ (files st)) as [fs' [x|e]]; [|left; reflexivity].
  right. eexists. split; [reflexivity|]. cbn [e_name e_sourceUrl].
  split; [reflexivity|]. split; [exact (choose_best_image_nonempty _ _ _ Hu) | discriminate].
Qed.

Lemma mounts_entries lib w titles st e :
  In e (out_items (fold_left (mount_step lib w) titles st)) ->
  In e (out_items st) \/
  (In (e_name e) titles /\ e_sourceUrl e <> [] /\ ~ mount_unresolved lib w (e_name e)).
Proof.
  revert st. induction titles as [|t rest IH]; intros st; [left; assumption|].
  cbn [fold_left]. intros Hin. apply IH in Hin.
  destruct Hin as [Hin|(H1 & H2 & H3)]; [|right; split; [right; exact H1 | tauto]].
  destruct (mount_step_items lib w st t) as [E|(e0 & E & Hn & Hu & Hr)];
    rewrite E in Hin; [left; exact Hin|].
  apply in_app_or in Hin. destruct Hin as [Hin|[<-|[]]]; [left; exact Hin|].
  right. rewrite Hn. split; [left; reflexivity | tauto].
Qed.

(** C3, as the code has it.  In the creatures harvest every row of the
    index is written with the address found for it, the empty string when
    the lookup finds none, and the download loop ends normally whenever
    every lookup does.  In the mounts harvest a title for which no image
    address is found changes nothing: the loop goes on as if the title were
    not there, and every entry of the index has a title that was resolved
    and an address that is not empty. *)
Theorem unresolved_record_kept :
  (forall w (idx : index) fs g,
     NoDup (map fst idx) -> mirror_group w idx fs = Ok g ->
     g_index g = map (resolve w) idx) /\
  (forall w k row,
     mw_original_image_url w (e_sourceWikiFile row) = Ok None ->
     (resolve w (k, row)).1 = k /\
     e_name (resolve w (k, row)).2 = e_name row /\
     e_file (resolve w (k, row)).2 = e_file row /\
     e_sourceUrl (resolve w (k, row)).2 = []) /\
  (forall w (idx : index) fs,
     (forall kv, In kv idx ->
        exists src, mw_original_image_url w (e_sourceWikiFile kv.2) = Ok src) ->
     exists g, mirror_group w idx fs = Ok g) /\
  (forall lib w page_urls fs g,
     run_group lib w page_urls fs = Ok g ->
     exists idx,
       collect_pages lib w page_urls [] = Ok idx /\
       NoDup (map fst idx) /\
       g_index g = map (resolve w) idx /\
       forall k row,
         In (k, row) idx ->
         mw_original_image_url w (e_sourceWikiFile row) = Ok None ->
         In (k, {| e_name := e_name row; e_file := e_file row;
                   e_sourceWikiFile := e_sourceWikiFile row; e_sourceUrl := [] |})
            (g_index g)) /\
  (forall lib w pre title post fs,
     mount_unresolved lib w title ->
     mounts_mirror lib w (pre ++ title :: post) fs = mounts_mirror lib w (pre ++ post) fs) /\
  (forall lib w titles fs e,
     In e (out_items (mounts_mirror lib w titles fs)) ->
     In (e_name e) titles /\ e_sourceUrl e <> [] /\ ~ mount_unresolved lib w (e_name e)).
Proof.
  split; [exact mirror_group_index|].
  split; [|split; [exact mirror_group_ok|split; [|split]]].
  - intros w k row H. unfold resolve, lookup_url. cbn [fst snd e_name e_file e_sourceUrl].
    rewrite H. repeat split.
  - intros lib w urls fs g Hrun.
    destruct (run_group_index lib w urls fs g Hrun) as (idx & Hc & Hnd & Hidx).
    exists idx. repeat (split; [assumption|]).
    intros k row Hin Hnone. rewrite Hidx.
    apply in_map_iff. exists (k, row). split; [|exact Hin].
    unfold resolve, lookup_url. cbn [fst snd]. rewrite Hnone. reflexivity.
  - intros lib w pre t post fs H. unfold mounts_mirror.
    rewrite !fold_left_app. cbn [fold_left].
    rewrite (mount_step_unresolved lib w _ t H). reflexivity.
  - intros lib w titles fs e Hin. apply mounts_entries in Hin.
    destruct Hin as [[]|H]. exact H.
Qed.

Lemma unresolved_record_kept_witness :
  mounts_mirror (sample_library imageless_page ".png") image_site
                ([py "Racing Bird"] ++ py "War Bear" :: []) ∅ =
  mounts_mirror (sample_library imageless_page ".png") image_site
                ([py "Racing Bird"] ++ []) ∅.
Proof.
  destruct unresolved_record_kept as (_ & _ & _ & _ & Hskip & _).
  apply Hskip. reflexivity.
Defined.

(** C3, as the spec has it, fails: a mount whose page shows no image gets
    no entry in the index, not an entry with an empty address. *)
Lemma unresolved_mount_omitted :
  mount_unresolved (sample_library imageless_page ".png") image_site (py "War Bear") /\
  out_items (mounts_mirror (sample_library imageless_page ".png") image_site
                           [py "War Bear"] ∅) = [].
Proof. split; reflexivity. Qed.

(** ** Running a mirror stage again *)

(** what [download_wiki] does: it ends normally exactly when the file is
    delivered, and then the file holds the body *)
Lemma download_wiki_spec (w : site) (url p : str) (fs : dir) :
  (delivers w url = true /\
   exists r, get_file w url = Some r /\
             download_wiki w url p fs = (<[p := f_body r]> fs, Ok tt)) \/
  (delivers w url = false /\
   exists fs' e, download_wiki w url p fs = (fs', Raise e) /\
                 (fs' = fs \/ exists body, fs' = <[p := body]> fs)).
Proof.
  unfold delivers, download_wiki.
  destruct (get_file w url) as [r|]; [|right; split; [reflexivity|]; eauto].
  destruct (raise_for_status (f_status r)) as [[]|e];
    [|right; split; [reflexivity|]; eauto].
  destruct (f_complete r).
  - left. split; [reflexivity|]. exists r. split; reflexivity.
  - right. split; [reflexivity|]. do 2 eexists. split; [reflexivity|]. right. eauto.
Qed.

Lemma present_insert_other (f p body : str) (fs : dir) :
  present p fs = false -> present f fs = true -> present f (<[p := body]> fs) = true.
Proof.
  intros Hp Hf. unfold present in *.
  destruct (decide (p = f)) as [->|Hne]; [congruence|].
  rewrite lookup_insert_ne by exact Hne. exact Hf.
Qed.

Lemma present_insert_nonempty (p body : str) (fs : dir) :
  body <> [] -> present p (<[p := body]> fs) = true.
Proof.
  intros H. unfold present. rewrite lookup_insert_eq. destruct body; [contradiction | reflexivity].
Qed.

(** a file that is there stays there *)
Lemma group_step_present w st item st' f :
  group_step w st item = Ok st' ->
  present f (g_files st) = true -> present f (g_files st') = true.
Proof.
  unfold group_step. destruct item as [name row].
  destruct (mw_original_image_url w (e_sourceWikiFile row)) as [src|e]; run_bind;
    [|discriminate].
  destruct (present (e_file row) (g_files st)) eqn:Hp.
  - intros E. injection E as <-. trivial.
  - destruct src as [[|c u]|]; try (intros E; injection E as <-; trivial).
    destruct (download_wiki_spec w (c :: u) (e_file row) (g_files st))
      as [(_ & r & _ & ->)|(_ & fs' & e & -> & Hfs)];
      intros E; injection E as <-; cbn [g_files]; intros Hf.
    + apply present_insert_other; assumption.
    + destruct Hfs as [->|(body & ->)]; [exact Hf|].
      apply present_insert_other; assumption.
Qed.

Lemma group_step_settled_mono w st item st' row :
  group_step w st item = Ok st' ->
  settled w (g_files st) row -> settled w (g_files st') row.
Proof.
  intros Hstep [Hp|Hn]; [left | right; exact Hn].
  exact (group_step_present w st item st' _ Hstep Hp).
Qed.

Lemma group_loop_settled_mono w items st st' row :
  group_loop w items st = Ok st' ->
  settled w (g_files st) row -> settled w (g_files st') row.
Proof.
  revert st. induction items as [|item rest IH]; intros st; cbn [group_loop].
  - intros E. injection E as <-. trivial.
  - destruct (group_step w st item) as [st1|e] eqn:Hstep; run_bind; [|discriminate].
    intros Hloop Hs. apply (IH st1 Hloop).
    exact (group_step_settled_mono w st item st1 row Hstep Hs).
Qed.

(** On a site that delivers no empty file, a run settles every row. *)
Section NoEmptyDelivery.
Variable w : site.
Hypothesis Hdelivery : no_empty_delivery w.

(** after its turn nothing is left to download for a row *)
Lemma group_step_settles st name row st' :
  group_step w st (name, row) = Ok st' ->
  settled w (g_files st') row.
Proof.
  unfold group_step, settled.
  destruct (mw_original_image_url w (e_sourceWikiFile row)) as [src|e]; run_bind;
    [|discriminate].
  destruct (present (e_file row) (g_files st)) eqn:Hp.
  - intros E. injection E as <-. left. exact Hp.
  - destruct src as [[|c u]|];
      try (intros E; injection E as <-; right; intros c0 u0; discriminate).
    destruct (download_wiki_spec w (c :: u) (e_file row) (g_files st))
      as [(Hd & r & Hr & ->)|(Hd & fs' & e & -> & Hfs)];
      intros E; injection E as <-; cbn [g_files].
    + left. apply present_insert_nonempty. exact (Hdelivery _ r Hr Hd).
    + right. intros c0 u0 E. injection E as <- <-. exact Hd.
Qed.

Lemma group_loop_settles items st st' :
  group_loop w items st = Ok st' ->
  forall kv, In kv items -> settled w (g_files st') kv.2.
Proof.
  revert st. induction items as [|[name row] rest IH]; intros st;
    cbn [group_loop]; [intros _ kv []|].
  destruct (group_step w st (name, row)) as [st1|e] eqn:Hstep; run_bind;
    [|discriminate].
  intros Hloop kv [<-|Hin]; [|exact (IH st1 Hloop kv Hin)].
  cbn [snd]. apply (group_loop_settled_mono w rest st1 st' row Hloop).
  exact (group_step_settles st name row st1 Hstep).
Qed.
End NoEmptyDelivery.

(** a turn for a row with nothing left to download downloads nothing *)
Lemma group_step_idle w st name row st' :
  settled w (g_files st) row ->
  group_step w st (name, row) = Ok st' ->
  g_downloaded st' = g_downloaded st.
Proof.
  intros Hs. unfold group_step.
  destruct (mw_original_image_url w (e_sourceWikiFile row)) as [src|e] eqn:Hsrc;
    run_bind; [|discriminate].
  destruct (present (e_file row) (g_files st)) eqn:Hp.
  - intros E. injection E as <-. reflexivity.
  - destruct Hs as [Hs|Hs]; [congruence|].
    destruct src as [[|c u]|]; try (intros E; injection E as <-; reflexivity).
    specialize (Hs c u Hsrc).
    destruct (download_wiki_spec w (c :: u) (e_file row) (g_files st))
      as [(Hd & _)|(_ & fs' & e & -> & _)]; [congruence|].
    intros E. injection E as <-. reflexivity.
Qed.

Lemma group_loop_idle w items st st' :
  (forall kv, In kv items -> settled w (g_files st) kv.2) ->
  group_loop w items st = Ok st' ->
  g_downloaded st' = g_downloaded st.
Proof.
  revert st. induction items as [|[name row] rest IH]; intros st Hall; cbn [group_loop].
  - intros E. injection E as <-. reflexivity.
  - destruct (group_step w st (name, row)) as [st1|e] eqn:Hstep; run_bind;
    [|discriminate].
    intros Hloop. rewrite (IH st1); [| |exact Hloop].
    + exact (group_step_idle w st name row st1 (Hall _ (or_introl eq_refl)) Hstep).
    + intros kv Hin. apply (group_step_settled_mono w st (name, row) st1 _ Hstep).
      apply Hall. right. exact Hin.
Qed.

(** a file that is there is left as it is *)
Lemma group_step_keeps_file w st item st' (f : str) :
  group_step w st item = Ok st' ->
  present f (g_files st) = true -> g_files st' !! f = g_files st !! f.
Proof.
  unfold group_step. destruct item as [name row].
  destruct (mw_original_image_url w (e_sourceWikiFile row)) as [src|e]; run_bind;
    [|discriminate].
  destruct (present (e_file row) (g_files st)) eqn:Hp.
  - intros E. injection E as <-. reflexivity.
  - destruct src as [[|c u]|]; try (intros E; injection E as <-; reflexivity).
    assert (Hother : present f (g_files st) = true -> e_file row <> f)
      by (intros Hf E; rewrite E in Hp; congruence).
    destruct (download_wiki_spec w (c :: u) (e_file row) (g_files st))
      as [(_ & r & _ & ->)|(_ & fs' & e & -> & Hfs)];
      intros E; injection E as <-; cbn [g_files]; intros Hf.
    + apply lookup_insert_ne, Hother, Hf.
    + destruct Hfs as [->|(body & ->)]; [reflexivity|].
      apply lookup_insert_ne, Hother, Hf.
Qed.

Lemma group_loop_keeps_file w items st st' (f : str) :
  group_loop w items st = Ok st' ->
  present f (g_files st) = true -> g_files st' !! f = g_files st !! f.
Proof.
  revert st. induction items as [|item rest IH]; intros st; cbn [group_loop].
  - intros E. injection E as <-. reflexivity.
  - destruct (group_step w st item) as [st1|e] eqn:Hstep; run_bind; [|discriminate].
    intros Hloop Hf.
    rewrite (IH st1 Hloop (group_step_present w st item st1 f Hstep Hf)).
    exact (group_step_keeps_file w st item st1 f Hstep Hf).
Qed.

(** the index written does not depend on the directory *)
Lemma group_loop_index_indep w items st1 st2 a :
  g_index st1 = g_index st2 ->
  group_loop w items st1 = Ok a ->
  exists b, group_loop w items st2 = Ok b /\ g_index b = g_index a.
Proof.
  revert st1 st2. induction items as [|[name row] rest IH]; intros st1 st2 Hidx;
    cbn [group_loop].
  - intros E. injection E as <-. exists st2. split; [reflexivity | symmetry; exact Hidx].
  - destruct (group_step w st1 (name, row)) as [s1|e] eqn:H1; run_bind; [|discriminate].
    intros Hloop.
    destruct (group_step_index w st1 name row s1 H1) as (src & Hsrc & E1).
    destruct (group_step_ok w st2 name row src Hsrc) as (s2 & H2).
    destruct (group_step_index w st2 name row s2 H2) as (src' & Hsrc' & E2).
    rewrite H2. run_bind. apply (IH s1 s2); [|exact Hloop].
    rewrite E1, E2, Hidx. congruence.
Qed.

Lemma mirror_group_rerun w (idx : index) fs1 fs2 g1 :
  mirror_group w idx fs1 = Ok g1 ->
  exists g2, mirror_group w idx fs2 = Ok g2 /\ g_index g2 = g_index g1.
Proof. apply group_loop_index_indep. reflexivity. Qed.

Lemma mirror_group_rerun_idle w (idx : index) fs g1 :
  no_empty_delivery w ->
  mirror_group w idx fs = Ok g1 ->
  exists g2,
    mirror_group w idx (g_files g1) = Ok g2 /\
    g_index g2 = g_index g1 /\ g_downloaded g2 = 0.
Proof.
  intros Hne H1.
  destruct (mirror_group_rerun w idx fs (g_files g1) g1 H1) as (g2 & H2 & Hidx).
  exists g2. split; [exact H2|]. split; [exact Hidx|].
  unfold mirror_group in *.
  rewrite (group_loop_idle w (sorted_items idx)
             {| g_index := idx; g_files := g_files g1; g_downloaded := 0; g_skipped := 0 |}
             g2 (group_loop_settles w Hne _ _ g1 H1) H2).
  reflexivity.
Qed.

Lemma download_fandom_result (w : site) (url p1 p2 : str) (fs1 fs2 : dir) :
  (download_fandom w url p1 fs1).2 = (download_fandom w url p2 fs2).2.
Proof.
  unfold download_fandom. destruct (get_file w url) as [r|]; [|reflexivity].
  destruct (raise_for_status (f_status r)); [|reflexivity].
  destruct (negb _); reflexivity.
Qed.

Lemma mount_step_indep lib w st1 st2 title :
  out_items st1 = out_items st2 ->
  downloaded st1 = length (out_items st1) ->
  downloaded st2 = length (out_items st2) ->
  out_items (mount_step lib w st1 title) = out_items (mount_step lib w st2 title) /\
  downloaded (mount_step lib w st1 title) = length (out_items (mount_step lib w st1 title)) /\
  downloaded (mount_step lib w st2 title) = length (out_items (mount_step lib w st2 title)).
Proof.
  intros Hitems Hd1 Hd2. unfold mount_step, normalize_image_url.
  destruct (api_parse_html w title) as [html|e]; [|tauto].
  destruct (choose_best_image_from_page lib html) as [u|]; [|tauto].
  cbv zeta.
  pose proof (download_fandom_result w u
                (safe_filename title ++ extension lib u)
                (safe_filename title ++ extension lib u) (files st1) (files st2)) as Hres.
  destruct (download_fandom w u _ (files st1)) as [fs1' [x1|e1]];
    destruct (download_fandom w u _ (files st2)) as [fs2' [x2|e2]];
    cbn [snd] in Hres; try discriminate Hres; cbn [out_items downloaded].
  - rewrite Hitems in *. rewrite !length_app. cbn [length].
    split; [reflexivity|]. lia.
  - tauto.
Qed.

Lemma mounts_fold_indep lib w titles st1 st2 :
  out_items st1 = out_items st2 ->
  downloaded st1 = length (out_items st1) ->
  downloaded st2 = length (out_items st2) ->
  out_items (fold_left (mount_step lib w) titles st1) =
    out_items (fold_left (mount_step lib w) titles st2) /\
  downloaded (fold_left (mount_step lib w) titles st1) =
    length (out_items (fold_left (mount_step lib w) titles st1)).
Proof.
  revert st1 st2. induction titles as [|t rest IH]; intros st1 st2 Hi H1 H2;
    cbn [fold_left]; [tauto|].
  destruct (mount_step_indep lib w st1 st2 t Hi H1 H2) as (Hi' & H1' & H2').
  apply IH; assumption.
Qed.

(** C2, as the code has it.  In the creatures harvest a row whose file is
    there and not empty has its address recorded and is not downloaded, and
    a run leaves such a file as it is; the index written does not depend on
    the directory, so a second run writes the same index; and when the site
    delivers no empty file, a second run over the directory left by the
    first downloads nothing.  In the mounts harvest a second run writes the
    same index too, and downloads every entry of it again. *)
Theorem rerun_of_mirror_stage :
  (forall w st name row src,
     mw_original_image_url w (e_sourceWikiFile row) = Ok src ->
     present (e_file row) (g_files st) = true ->
     group_step w st (name, row) =
       Ok {| g_index := set_source_url name (default [] src) (g_index st);
             g_files := g_files st;
             g_downloaded := g_downloaded st;
             g_skipped := g_skipped st |}) /\
  (forall w (idx : index) fs g (f : str),
     mirror_group w idx fs = Ok g ->
     present f fs = true -> g_files g !! f = fs !! f) /\
  (forall w (idx : index) fs1 fs2 g1,
     mirror_group w idx fs1 = Ok g1 ->
     exists g2, mirror_group w idx fs2 = Ok g2 /\ g_index g2 = g_index g1) /\
  (forall w (idx : index) fs g1,
     no_empty_delivery w ->
     mirror_group w idx fs = Ok g1 ->
     exists g2,
       mirror_group w idx (g_files g1) = Ok g2 /\
       g_index g2 = g_index g1 /\ g_downloaded g2 = 0) /\
  (forall lib w page_urls fs g1,
     no_empty_delivery w ->
     run_group lib w page_urls fs = Ok g1 ->
     exists g2,
       run_group lib w page_urls (g_files g1) = Ok g2 /\
       g_index g2 = g_index g1 /\ g_downloaded g2 = 0) /\
  (forall lib w titles fs1 fs2,
     out_items (mounts_mirror lib w titles fs1) = out_items (mounts_mirror lib w titles fs2) /\
     downloaded (mounts_mirror lib w titles fs2) =
       length (out_items (mounts_mirror lib w titles fs2))).
Proof.
  split; [|split; [|split; [exact mirror_group_rerun|split;
                              [exact mirror_group_rerun_idle|split]]]].
  - intros w st name row src Hsrc Hp. unfold group_step. rewrite Hsrc. run_bind.
    rewrite Hp. reflexivity.
  - intros w idx fs g f H Hf. unfold mirror_group in H.
    exact (group_loop_keeps_file w _ _ g f H Hf).
  - intros lib w urls fs g1 Hne. unfold run_group.
    destruct (collect_pages lib w urls []) as [idx|e]; run_bind; [|discriminate].
    apply mirror_group_rerun_idle, Hne.
  - intros lib w titles fs1 fs2. unfold mounts_mirror. split.
    + apply mounts_fold_indep; reflexivity.
    + apply (mounts_fold_indep lib w titles _
               {| out_items := []; files := fs1; downloaded := 0 |}); reflexivity.
Qed.

(** C2, as the spec has it, fails: the mounts harvest, run again over the
    directory it has just filled, downloads the file that is there; and the
    creatures harvest downloads again a file that was delivered empty. *)
Lemma mounts_rerun_downloads_again :
  let lib := sample_library image_page ".gif" in
  let run1 := mounts_mirror lib image_site [py "War Bear"] ∅ in
  let run2 := mounts_mirror lib image_site [py "War Bear"] (files run1) in
  map e_file (out_items run1) = [py "War_Bear.gif"] /\
  present (py "War_Bear.gif") (files run1) = true /\
  out_items run2 = out_items run1 /\
  downloaded run2 = 1 /\
  exists g1 g2,
    mirror_group empty_file_site rat_index ∅ = Ok g1 /\
    mirror_group empty_file_site rat_index (g_files g1) = Ok g2 /\
    g_index g2 = g_index g1 /\
    g_downloaded g2 = 2.
Proof.
  cbv zeta. repeat (split; [vm_compute; reflexivity|]).
  do 2 eexists. repeat split; vm_compute; reflexivity.
Qed.

Lemma creature_site_no_empty_delivery : no_empty_delivery creature_site.
Proof. intros url r E _. injection E as <-. discriminate. Qed.

Lemma rerun_of_mirror_stage_witness :
  exists g1 g2,
    mirror_group creature_site rat_index ∅ = Ok g1 /\
    g_downloaded g1 = 2 /\
    mirror_group creature_site rat_index (g_files g1) = Ok g2 /\
    g_index g2 = g_index g1 /\
    g_downloaded g2 = 0.
Proof.
  destruct rerun_of_mirror_stage as (_ & _ & _ & Hidle & _).
  assert (H1 : exists g1, mirror_group creature_site rat_index ∅ = Ok g1 /\
                          g_downloaded g1 = 2)
    by (eexists; split; vm_compute; reflexivity).
  destruct H1 as (g1 & H1 & Hd).
  destruct (Hidle creature_site rat_index ∅ g1 creature_site_no_empty_delivery H1)
    as (g2 & H2 & Hidx & Hzero).
  exists g1, g2. repeat split; assumption.
Defined.



(** * Further properties of the scripts *)

(** ** [norm] and [cell_text] *)

















(** ** [safe_filename] and [build_fandom_gif_file] once more *)

Lemma filter_all_true {A} (p : A -> bool) l :
  Forall (fun x => p x = true) l -> List.filter p l = l.
Proof. induction 1 as [|x r Hx _ IH]; cbn [List.filter]; [|rewrite Hx, IH]; reflexivity. Qed.

Lemma drop_while_none p s :
  Forall (fun c => p c = false) s -> drop_while p s = s.
Proof. destruct 1 as [|c r Hc _]; cbn [drop_while]; [|rewrite Hc]; reflexivity. Qed.

Lemma strip_no_space s : Forall (fun c => is_space c = false) s -> strip s = s.
Proof.
  intros H. unfold strip, rstrip, lstrip.
  rewrite (drop_while_none _ s H), drop_while_none by (apply Forall_rev, H).
  apply rev_involutive.
Qed.

Lemma sub_ws_no_space b rep s :
  Forall (fun c => is_space c = false) s -> sub_ws_from b rep s = s.
Proof.
  intros H. revert b. induction H as [|c r Hc _ IH]; intros b; cbn [sub_ws_from];
    [|rewrite Hc, IH]; reflexivity.
Qed.

Lemma allowed_keep c : allowed_char c = true -> keep_char c = true.
Proof.
  unfold allowed_char, keep_char. rewrite !orb_true_iff. tauto.
Qed.

(** a clean stem is left as it is *)
Lemma safe_filename_clean s :
  s <> [] -> length s <= 160 ->
  Forall (fun c => allowed_char c = true /\ is_space c = false) s ->
  safe_filename s = s.
Proof.
  intros Hne Hlen H.
  assert (Hkeep : Forall (fun c => keep_char c = true) s)
    by (revert H; apply List.Forall_impl; intros c [Hc _]; apply allowed_keep, Hc).
  assert (Hsp : Forall (fun c => is_space c = false) s)
    by (revert H; apply List.Forall_impl; tauto).
  unfold safe_filename, sub_ws.
  rewrite (filter_all_true _ _ Hkeep), (strip_no_space _ Hsp), (sub_ws_no_space _ _ _ Hsp).
  destruct s; [contradiction|]. apply take_ge. exact Hlen.
Qed.

(** X3. [safe_filename] changes nothing in a name it has produced. *)
Theorem safe_filename_idempotent (name : str) :
  safe_filename (safe_filename name) = safe_filename name.
Proof.
  assert (Hall : Forall (fun c => allowed_char c = true /\ is_space c = false)
                   (sub_ws (py "_") (strip (List.filter keep_char name))))
    by apply sub_ws_underscore_allowed, strip_Forall, filter_keep_Forall.
  unfold safe_filename at 2 3.
  destruct (sub_ws (py "_") (strip (List.filter keep_char name))) as [|c r] eqn:E.
  - vm_compute. reflexivity.
  - apply safe_filename_clean.
    + discriminate.
    + rewrite length_take. lia.
    + apply Forall_take, Hall.
Qed.

Lemma is_space_upper_c c : is_space (upper_c c) = is_space c.
Proof. by_cases_on_char c. Qed.






Lemma is_prefix_app p y : is_prefix p (p ++ y) = true.
Proof.
  induction p as [|c p IH]; [destruct y; reflexivity|].
  cbn [app is_prefix]. unfold chr_eqb. rewrite Ascii.eqb_refl. exact IH.
Qed.




(** ** The header dictionary and [main] of the achievements script *)

Lemma header_index_snoc headers h :
  header_index (headers ++ [h]) = <[h := length headers]> (header_index headers).
Proof.
  unfold header_index. rewrite imap_app, fold_left_app. cbn [imap fold_left snd fst].
  rewrite Nat.add_0_r. reflexivity.
Qed.

Lemma header_index_last (headers : list str) (h : str) :
  match header_index headers !! h with
  | None => ~ In h headers
  | Some i => headers !! i = Some h /\ forall j, i < j -> headers !! j <> Some h
  end.
Proof.
  induction headers as [|x headers IH] using rev_ind.
  - unfold header_index. cbn. rewrite lookup_empty. intros [].
  - rewrite header_index_snoc. destruct (decide (x = h)) as [->|Hne].
    + rewrite lookup_insert_eq. split.
      * rewrite lookup_app_r by lia. rewrite Nat.sub_diag. reflexivity.
      * intros j Hj. rewrite lookup_ge_None_2; [discriminate|].
        rewrite length_app. cbn [length]. lia.
    + rewrite lookup_insert_ne by exact Hne.
      destruct (header_index headers !! h) as [i|].
      * destruct IH as [Hi Hlast].
        pose proof (lookup_lt_Some _ _ _ Hi) as Hlt. split.
        -- rewrite lookup_app_l by exact Hlt. exact Hi.
        -- intros j Hj. destruct (Nat.lt_ge_cases j (length headers)) as [Hin|Hout].
           ++ rewrite lookup_app_l by exact Hin. apply Hlast, Hj.
           ++ rewrite lookup_app_r by exact Hout.
              destruct (j - length headers) as [|k]; cbn; [congruence | discriminate].
      * intros Hin. apply in_app_or in Hin. destruct Hin as [Hin|[E|[]]]; [tauto | congruence].
Qed.

(** X5. The header dictionary maps a header to the position of its last
    occurrence in the header row, and has no entry for a text that is not a
    header. *)
Theorem header_index_lookup (headers : list str) (h : str) :
  (header_index headers !! h = None <-> ~ In h headers) /\
  (forall i, header_index headers !! h = Some i <->
             headers !! i = Some h /\ forall j, i < j -> headers !! j <> Some h).
Proof.
  pose proof (header_index_last headers h) as H.
  destruct (header_index headers !! h) as [i|] eqn:E.
  - destruct H as [Hi Hlast]. split.
    + split; [discriminate|]. intros Hno. exfalso. apply Hno.
      apply list_elem_of_In, list_elem_of_lookup. eauto.
    + intros k. split.
      * intros Ek. injection Ek as <-. split; assumption.
      * intros [Hk Hklast]. f_equal.
        destruct (Nat.lt_trichotomy i k) as [Hlt|[->|Hgt]]; [|reflexivity|].
        -- exfalso. exact (Hlast k Hlt Hk).
        -- exfalso. exact (Hklast i Hgt Hi).
  - split; [split; trivial|].
    intros i. split; [discriminate|]. intros [Hi _]. exfalso. apply H.
    apply list_elem_of_In, list_elem_of_lookup. eauto.
Qed.

Lemma header_index_lookup_witness :
  header_index [py "name"; py "id"; py "name"] !! py "name" = Some 2.
Proof.
  apply (proj2 (header_index_lookup [py "name"; py "id"; py "name"] (py "name")) 2).
  split; [reflexivity|].
  intros j Hj. destruct j as [|[|[|j]]]; try lia; discriminate.
Defined.







(** ** The locator of the outfits script *)












(** ** The choice of an image *)

Lemma node_induction (P : node -> Prop) :
  (forall s, P (Text s)) ->
  (forall t a ks, Forall P ks -> P (Elem t a ks)) ->
  forall n, P n.
Proof.
  intros HT HE. fix IH 1. intros [s|t a ks]; [apply HT|].
  apply HE. induction ks as [|k ks IHks]; constructor; [apply IH | exact IHks].
Qed.

Lemma descendants_In k ks x :
  In k ks -> x = k \/ In x (descendants k) ->
  In x (flat_map (fun k => k :: descendants k) ks).
Proof.
  intros Hk Hx. apply in_flat_map. exists k. split; [exact Hk|].
  destruct Hx as [->|Hx]; [left; reflexivity | right; exact Hx].
Qed.

(** what lies below a node below [n] lies below [n] *)
Lemma descendants_trans n x y :
  In x (descendants n) -> In y (descendants x) -> In y (descendants n).
Proof.
  revert x y. induction n as [s|t a ks IH] using node_induction; intros x y;
    cbn [descendants]; [intros []|].
  rewrite in_flat_map. intros (k & Hk & Hx) Hy.
  apply (descendants_In k); [exact Hk|]. right.
  destruct Hx as [<-|Hx]; [exact Hy|].
  rewrite List.Forall_forall in IH. exact (IH k Hk x y Hx Hy).
Qed.

Lemma head_In {A} (l : list A) x : head l = Some x -> In x l.
Proof. destruct l; [discriminate|]. intros E. injection E as <-. left. reflexivity. Qed.

Lemma find_In name n x : find name n = Some x -> In x (find_all [name] n).
Proof. apply head_In. Qed.

Lemma select_infobox_img_In soup img :
  select_infobox_img soup = Some img -> In img (find_all [py "img"] soup).
Proof.
  unfold select_infobox_img. intros H. apply head_In in H.
  apply in_flat_map in H. destruct H as (fig & Hfig & Himg).
  apply filter_In in Hfig. destruct Hfig as [Hfig _].
  unfold find_all in *. apply filter_In in Himg. destruct Himg as [Himg Htag].
  apply filter_In. split; [|exact Htag]. exact (descendants_trans _ _ _ Hfig Himg).
Qed.

Lemma image_source_offers img u : image_source img = Some u -> offers img u.
Proof.
  intros H. split; [exact (image_source_nonempty img u H)|].
  unfold image_source in H.
  destruct (truthy (attr (py "data-src") img)) eqn:Hd; [left; exact H|].
  destruct (truthy (attr (py "src") img)); [|discriminate].
  right. split; [reflexivity | exact H].
Qed.

Lemma image_source_none img : image_source img = None <-> forall u, ~ offers img u.
Proof.
  unfold image_source, offers. split.
  - intros H u [Hne [Hu|[Hd Hu]]].
    + rewrite Hu in H. destruct u; [contradiction|]. discriminate H.
    + rewrite Hd, Hu in H. destruct u; [contradiction|]. discriminate H.
  - intros H.
    destruct (attr (py "data-src") img) as [[|c d]|] eqn:Hd; cbn [truthy].
    + destruct (attr (py "src") img) as [[|c s]|] eqn:Hs; try reflexivity.
      exfalso. apply (H (c :: s)). split; [discriminate|]. right. split; reflexivity.
    + exfalso. apply (H (c :: d)). split; [discriminate|]. left. reflexivity.
    + destruct (attr (py "src") img) as [[|c s]|] eqn:Hs; try reflexivity.
      exfalso. apply (H (c :: s)). split; [discriminate|]. right. split; reflexivity.
Qed.

(** X9. The address chosen for a mount is never invented: it is a non-empty
    [data-src] of an [img] element of the page, or its non-empty [src] when
    its [data-src] is missing or empty.  The infobox image is taken when it
    offers an address; no address is chosen exactly when neither the infobox
    image nor the first image of the page offers one.  The address picked
    from a table cell of the outfits page is offered by the first image of
    the cell. *)
Theorem chosen_image_is_offered (lib : library) (html : str) :
  (forall u,
     choose_best_image_from_page lib html = Some u ->
     exists img, In img (find_all [py "img"] (parse_html lib html)) /\ offers img u) /\
  (forall fig u,
     select_infobox_img (parse_html lib html) = Some fig -> offers fig u ->
     exists u', choose_best_image_from_page lib html = Some u' /\ offers fig u') /\
  (choose_best_image_from_page lib html = None <->
   (forall fig, select_infobox_img (parse_html lib html) = Some fig ->
                forall u, ~ offers fig u) /\
   (forall img, find (py "img") (parse_html lib html) = Some img ->
                forall u, ~ offers img u)) /\
  (forall td c u,
     pick_image_url_from_cell td = Some (c :: u) ->
     exists img, find (py "img") td = Some img /\ offers img (c :: u)).
Proof.
  unfold choose_best_image_from_page. set (soup := parse_html lib html).
  split; [|split; [|split]].
  - intros u H.
    destruct (select_infobox_img soup) as [fig|] eqn:Hfig.
    + destruct (image_source fig) as [v|] eqn:Hv.
      * injection H as <-. exists fig.
        split; [apply select_infobox_img_In, Hfig | apply image_source_offers, Hv].
      * destruct (find (py "img") soup) as [img|] eqn:Himg; [|discriminate].
        exists img. split; [apply find_In, Himg | apply image_source_offers, H].
    + destruct (find (py "img") soup) as [img|] eqn:Himg; [|discriminate].
      exists img. split; [apply find_In, Himg | apply image_source_offers, H].
  - intros fig u Hfig Hoff. rewrite Hfig.
    destruct (image_source fig) as [v|] eqn:Hv.
    + exists v. split; [reflexivity | apply image_source_offers, Hv].
    + exfalso. exact (proj1 (image_source_none fig) Hv u Hoff).
  - destruct (select_infobox_img soup) as [fig|] eqn:Hfig.
    + destruct (image_source fig) as [v|] eqn:Hv.
      * split; [discriminate|]. intros [H _]. exfalso.
        exact (H fig eq_refl v (image_source_offers fig v Hv)).
      * destruct (find (py "img") soup) as [img|] eqn:Himg.
        -- rewrite image_source_none. split.
           ++ intros H. split; [|intros i E; injection E as <-; exact H].
              intros f E. injection E as <-. apply image_source_none, Hv.
           ++ intros [_ H]. exact (H img eq_refl).
        -- split; [|reflexivity]. intros _. split; [|discriminate].
           intros f E. injection E as <-. apply image_source_none, Hv.
    + destruct (find (py "img") soup) as [img|] eqn:Himg.
      * rewrite image_source_none. split.
        -- intros H. split; [discriminate|]. intros i E. injection E as <-. exact H.
        -- intros [_ H]. exact (H img eq_refl).
      * split; [|reflexivity]. intros _. split; discriminate.
  - intros td c u. unfold pick_image_url_from_cell.
    destruct (find (py "img") td) as [img|]; [|discriminate].
    intros H. exists img. split; [reflexivity|]. split; [discriminate|].
    unfold str_or in H.
    destruct (attr (py "data-src") img) as [[|c' d]|] eqn:Hd;
      [right; split; [reflexivity | exact H] | left; exact H
      | right; split; [reflexivity | exact H]].
Qed.

Lemma chosen_image_is_offered_witness :
  exists img,
    In img (find_all [py "img"] image_page) /\
    offers img (py "https://static.example/War_Bear.gif").
Proof.
  destruct (chosen_image_is_offered (sample_library image_page ".gif") (py "<html>"))
    as (Hchosen & _).
  apply Hchosen. vm_compute. reflexivity.
Defined.

(** ** The downloads *)

Lemma download_fandom_cases (w : site) (url p : str) (fs : dir) :
  (download_fandom w url p fs).1 = fs /\
  (exists e, (download_fandom w url p fs).2 = Raise e) /\
  (forall r, get_file w url = Some r -> ~ image_answer r)
  \/
  exists r,
    get_file w url = Some r /\ image_answer r /\
    (download_fandom w url p fs).1 = <[p := f_body r]> fs /\
    (download_fandom w url p fs).2 =
      if f_complete r then Ok tt else Raise ConnectionError.
Proof.
  unfold download_fandom, image_answer.
  destruct (get_file w url) as [r|]; [|left; cbn; eauto using eq_refl].
  2:{ split; [reflexivity|]. split; [eauto|]. discriminate. }
  destruct (raise_for_status (f_status r)) as [[]|e] eqn:Hst.
  - destruct (contains (py "image/") (lower (f_content_type r))) eqn:Hct; cbn [negb].
    + right. exists r. repeat split; reflexivity || assumption.
    + left. split; [reflexivity|]. split; [eauto|].
      intros r' E. injection E as <-. intros [_ H]. congruence.
  - left. split; [reflexivity|]. split; [eauto|].
    intros r' E. injection E as <-. intros [H _]. congruence.
Qed.

Lemma download_wiki_cases (w : site) (url p : str) (fs : dir) :
  (download_wiki w url p fs).1 = fs /\
  (exists e, (download_wiki w url p fs).2 = Raise e) /\
  (forall r, get_file w url = Some r -> raise_for_status (f_status r) <> Ok tt)
  \/
  exists r,
    get_file w url = Some r /\ raise_for_status (f_status r) = Ok tt /\
    (download_wiki w url p fs).1 = <[p := f_body r]> fs /\
    (download_wiki w url p fs).2 =
      if f_complete r then Ok tt else Raise ConnectionError.
Proof.
  unfold download_wiki.
  destruct (get_file w url) as [r|].
  2:{ left. split; [reflexivity|]. split; [eauto|]. discriminate. }
  destruct (raise_for_status (f_status r)) as [[]|e] eqn:Hst.
  - right. exists r. repeat split; reflexivity || assumption.
  - left. split; [reflexivity|]. split; [eauto|].
    intros r' E. injection E as <-. congruence.
Qed.

(** X10. A download touches no file but its own.  The download of the
    fandom scripts leaves the directory as it is and raises unless the
    answer has no error status and an image content type; with such an
    answer the file holds the bytes received, and the download raises if the
    stream broke.  The download of the creatures script does the same
    without looking at the content type. *)
Theorem downloads_write_one_file (w : site) (url p : str) (fs : dir) :
  (forall q, q <> p ->
     (download_fandom w url p fs).1 !! q = fs !! q /\
     (download_wiki w url p fs).1 !! q = fs !! q) /\
  ((forall r, get_file w url = Some r -> ~ image_answer r) ->
   (download_fandom w url p fs).1 = fs /\
   exists e, (download_fandom w url p fs).2 = Raise e) /\
  (forall r,
     get_file w url = Some r -> image_answer r ->
     (download_fandom w url p fs).1 !! p = Some (f_body r) /\
     (download_fandom w url p fs).2 =
       if f_complete r then Ok tt else Raise ConnectionError) /\
  ((forall r, get_file w url = Some r -> raise_for_status (f_status r) <> Ok tt) ->
   (download_wiki w url p fs).1 = fs /\
   exists e, (download_wiki w url p fs).2 = Raise e) /\
  (forall r,
     get_file w url = Some r -> raise_for_status (f_status r) = Ok tt ->
     (download_wiki w url p fs).1 !! p = Some (f_body r) /\
     (download_wiki w url p fs).2 =
       if f_complete r then Ok tt else Raise ConnectionError).
Proof.
  pose proof (download_fandom_cases w url p fs) as Hf.
  pose proof (download_wiki_cases w url p fs) as Hw.
  split; [|split; [|split; [|split]]].
  - intros q Hq. split.
    + destruct Hf as [(-> & _)|(r & _ & _ & -> & _)]; [reflexivity|].
      apply lookup_insert_ne. congruence.
    + destruct Hw as [(-> & _)|(r & _ & _ & -> & _)]; [reflexivity|].
      apply lookup_insert_ne. congruence.
  - intros Hno. destruct Hf as [(H1 & H2 & _)|(r & Hr & Himg & _)]; [split; assumption|].
    exfalso. exact (Hno r Hr Himg).
  - intros r Hr Himg. destruct Hf as [(_ & _ & Hno)|(r' & Hr' & _ & H1 & H2)].
    + exfalso. exact (Hno r Hr Himg).
    + assert (r' = r) by congruence. subst r'. rewrite H1, H2, lookup_insert_eq.
      split; reflexivity.
  - intros Hno. destruct Hw as [(H1 & H2 & _)|(r & Hr & Hst & _)]; [split; assumption|].
    exfalso. exact (Hno r Hr Hst).
  - intros r Hr Hst. destruct Hw as [(_ & _ & Hno)|(r' & Hr' & _ & H1 & H2)].
    + exfalso. exact (Hno r Hr Hst).
    + assert (r' = r) by congruence. subst r'. rewrite H1, H2, lookup_insert_eq.
      split; reflexivity.
Qed.

Lemma downloads_write_one_file_witness :
  (download_fandom image_site (py "u") (py "a.gif") ∅).1 !! py "b.gif" = None /\
  (download_fandom image_site (py "u") (py "a.gif") ∅).1 !! py "a.gif" = Some (py "GIF89a").
Proof.
  destruct (downloads_write_one_file image_site (py "u") (py "a.gif") ∅)
    as (Hframe & _ & Himage & _).
  split.
  - destruct (Hframe (py "b.gif")) as [H _]; [discriminate|]. rewrite H. reflexivity.
  - apply (Himage {| f_status := 200; f_content_type := py "image/gif";
                     f_body := py "GIF89a"; f_complete := true |}); [reflexivity|].
    split; reflexivity.
Defined.

(** ** The index and the directory of the mounts and outfits scripts *)

Lemma download_fandom_grows (w : site) (url p q : str) (fs : dir) :
  is_Some (fs !! q) -> is_Some ((download_fandom w url p fs).1 !! q).
Proof.
  intros H. destruct (download_fandom_cases w url p fs) as [(-> & _)|(r & _ & _ & -> & _)];
    [exact H|].
  apply lookup_insert_is_Some. destruct (decide (p = q)); [left | right]; tauto.
Qed.

Lemma download_fandom_ok (w : site) (url p : str) (fs : dir) x :
  (download_fandom w url p fs).2 = Ok x ->
  is_Some ((download_fandom w url p fs).1 !! p) /\
  exists r, get_file w url = Some r /\ image_answer r /\ f_complete r = true.
Proof.
  intros H. destruct (download_fandom_cases w url p fs)
    as [(_ & (e & He) & _)|(r & Hr & Himg & Hfs & Hres)]; [congruence|].
  rewrite Hfs, lookup_insert_eq. split; [eauto|].
  exists r. repeat (split; [assumption|]).
  rewrite Hres in H. destruct (f_complete r); [reflexivity | discriminate].
Qed.

(** what a turn of a mirror loop of the fandom scripts keeps *)
Lemma fandom_turn_keeps (w : site) (url p name : str) (st : mirror) (entry_of : entry) :
  e_file entry_of = p ->
  indexed_files_exist st ->
  indexed_files_exist
    (match download_fandom w url p (files st) with
     | (fs', Ok _) =>
         {| out_items := out_items st ++ [entry_of]; files := fs';
            downloaded := S (downloaded st) |}
     | (fs', Raise _) =>
         {| out_items := out_items st; files := fs'; downloaded := downloaded st |}
     end).
Proof.
  intros Hfile Hinv.
  pose proof (fun q => download_fandom_grows w url p q (files st)) as Hgrow.
  pose proof (download_fandom_ok w url p (files st)) as Hok.
  destruct (download_fandom w url p (files st)) as [fs' [x|e]]; cbn [fst snd] in *;
    intros e0; cbn [out_items files].
  - intros Hin. apply in_app_or in Hin. destruct Hin as [Hin|[<-|[]]].
    + apply Hgrow, Hinv, Hin.
    + rewrite Hfile. apply (Hok x eq_refl).
  - intros Hin. apply Hgrow, Hinv, Hin.
Qed.

Lemma mount_step_keeps lib w st title :
  indexed_files_exist st -> indexed_files_exist (mount_step lib w st title).
Proof.
  intros Hinv. unfold mount_step, normalize_image_url.
  destruct (api_parse_html w title) as [html|e]; [|exact Hinv].
  destruct (choose_best_image_from_page lib html) as [u|]; [|exact Hinv].
  cbv zeta. apply (fandom_turn_keeps w u _ title st); [reflexivity | exact Hinv].
Qed.

Lemma outfit_mirror_step_keeps lib w st item :
  indexed_files_exist st -> indexed_files_exist (outfit_mirror_step lib w st item).
Proof.
  intros Hinv. unfold outfit_mirror_step. cbv zeta.
  apply (fandom_turn_keeps w (o_img_url item) _ (o_name item) st); [reflexivity | exact Hinv].
Qed.

Lemma mount_step_grows lib w st title (q : str) :
  is_Some (files st !! q) -> is_Some (files (mount_step lib w st title) !! q).
Proof.
  intros H. unfold mount_step, normalize_image_url.
  destruct (api_parse_html w title) as [html|e]; [|exact H].
  destruct (choose_best_image_from_page lib html) as [u|]; [|exact H].
  cbv zeta.
  pose proof (download_fandom_grows w u (safe_filename title ++ extension lib u) q
                (files st) H) as Hg.
  destruct (download_fandom w u _ (files st)) as [fs' [x|e]]; exact Hg.
Qed.

Lemma outfit_mirror_step_grows lib w st item (q : str) :
  is_Some (files st !! q) -> is_Some (files (outfit_mirror_step lib w st item) !! q).
Proof.
  intros H. unfold outfit_mirror_step. cbv zeta.
  pose proof (download_fandom_grows w (o_img_url item)
                (safe_filename (o_name item) ++ extension lib (o_img_url item)) q
                (files st) H) as Hg.
  destruct (download_fandom w (o_img_url item) _ (files st)) as [fs' [x|e]]; exact Hg.
Qed.

Lemma fold_left_keeps {A S} (step : S -> A -> S) (P : S -> Prop) l st :
  (forall s a, P s -> P (step s a)) -> P st -> P (fold_left step l st).
Proof.
  intros Hstep. revert st. induction l as [|a r IH]; intros st H; [exact H|].
  cbn [fold_left]. apply IH, Hstep, H.
Qed.

(** X11. After the mirror loop of the mounts script, and of the outfits
    script, every entry of the index has its file in the directory, and
    every file that was in the directory before is still there. *)
Theorem fandom_index_files_exist (lib : library) (w : site) (fs : dir) :
  (forall titles,
     indexed_files_exist (mounts_mirror lib w titles fs) /\
     forall q : str, is_Some (fs !! q) ->
                     is_Some (files (mounts_mirror lib w titles fs) !! q)) /\
  (forall items,
     indexed_files_exist (outfits_mirror lib w items fs) /\
     forall q : str, is_Some (fs !! q) ->
                     is_Some (files (outfits_mirror lib w items fs) !! q)).
Proof.
  split.
  - intros titles. unfold mounts_mirror. split.
    + apply fold_left_keeps; [intros s a; apply mount_step_keeps|]. intros e [].
    + intros q Hq.
      apply (fold_left_keeps _ (fun st => is_Some (files st !! q)));
        [intros s a; apply mount_step_grows | exact Hq].
  - intros items. unfold outfits_mirror. split.
    + apply fold_left_keeps; [intros s a; apply outfit_mirror_step_keeps|]. intros e [].
    + intros q Hq.
      apply (fold_left_keeps _ (fun st => is_Some (files st !! q)));
        [intros s a; apply outfit_mirror_step_grows | exact Hq].
Qed.

Lemma fandom_index_files_exist_witness :
  is_Some (files (mounts_mirror (sample_library image_page ".gif") image_site
                    [py "War Bear"] {[ py "old.png" := py "x" ]}) !! py "old.png").
Proof.
  destruct (fandom_index_files_exist (sample_library image_page ".gif") image_site
              {[ py "old.png" := py "x" ]}) as [Hmounts _].
  apply (Hmounts [py "War Bear"]). rewrite lookup_singleton_eq. eauto.
Defined.

(** ** The order of the download loop of [run_group] *)

Lemma str_ltb_irrefl a : str_ltb a a = false.
Proof.
  induction a as [|x a IH]; [reflexivity|].
  cbn [str_ltb]. rewrite IH, Nat.ltb_irrefl, andb_false_r. reflexivity.
Qed.

Lemma str_ltb_cons x a y b :
  str_ltb (x :: a) (y :: b) = false <->
  code y < code x \/ (code x = code y /\ str_ltb a b = false).
Proof.
  cbn [str_ltb]. rewrite orb_false_iff, andb_false_iff, Nat.ltb_ge, Nat.eqb_neq.
  split.
  - intros [H1 [H2|H2]]; [left; lia|].
    destruct (Nat.eq_dec (code x) (code y)); [right; tauto | left; lia].
  - intros [H|[H1 H2]]; (split; [lia|]); [left; lia | right; exact H2].
Qed.

(** the order of strings is total: what is not below is above or equal *)
Lemma str_geb_trans a b c :
  str_ltb a b = false -> str_ltb b c = false -> str_ltb a c = false.
Proof.
  revert b c. induction a as [|x a IH]; intros [|y b] [|z c]; try reflexivity;
    try discriminate.
  rewrite !str_ltb_cons.
  intros [H1|[H1 H1']] [H2|[H2 H2']]; try (left; lia).
  right. split; [lia|]. exact (IH b c H1' H2').
Qed.

Lemma insert_by_key_sorted x l :
  StronglySorted key_le l -> StronglySorted key_le (insert_by_key x l).
Proof.
  induction 1 as [|y r Hr IH Hy]; cbn [insert_by_key].
  - constructor; [constructor | constructor].
  - destruct (str_ltb (lower x.1) (lower y.1)) eqn:Hlt.
    + constructor; [constructor; assumption|].
      assert (Hxy : key_le x y).
      { unfold key_le, sort_key.
        destruct (str_ltb (lower y.1) (lower x.1)) eqn:Hyx; [|reflexivity].
        (* both below each other: impossible *)
        exfalso. revert Hlt Hyx. generalize (lower x.1) (lower y.1). clear.
        intros a. induction a as [|c a IH]; intros [|d b]; cbn [str_ltb]; try discriminate.
        intros H1 H2. apply orb_true_iff in H1, H2.
        destruct H1 as [H1|H1], H2 as [H2|H2];
          rewrite ?andb_true_iff, ?Nat.ltb_lt, ?Nat.eqb_eq in *; try lia.
        destruct H1 as [_ H1], H2 as [_ H2]. exact (IH b H1 H2). }
      constructor; [exact Hxy|].
      eapply List.Forall_impl; [|exact Hy].
      intros z Hz. unfold key_le in *. exact (str_geb_trans _ _ _ Hz Hxy).
    + constructor; [exact IH|].
      assert (Hperm := insert_by_key_Permutation x r).
      rewrite List.Forall_forall. intros z Hz.
      apply (Permutation_in _ Hperm) in Hz. destruct Hz as [<-|Hz].
      * exact Hlt.
      * rewrite List.Forall_forall in Hy. exact (Hy z Hz).
Qed.

Lemma with_key_above k l :
  Forall (fun z => str_ltb k (sort_key z) = true \/
                   exists y, str_ltb k (sort_key y) = true /\ key_le y z) l ->
  with_key k l = [].
Proof.
  induction 1 as [|z r Hz _ IH]; [reflexivity|].
  unfold with_key in *. cbn [List.filter]. rewrite IH.
  destruct (str_eqb (sort_key z) k) eqn:E; [|reflexivity].
  apply str_eqb_eq in E. exfalso. destruct Hz as [Hz|(y & Hy & Hyz)].
  - rewrite E, str_ltb_irrefl in Hz. discriminate.
  - unfold key_le in Hyz. rewrite E in Hyz. congruence.
Qed.

Lemma with_key_cons k x l :
  with_key k (x :: l) = with_key k [x] ++ with_key k l.
Proof.
  unfold with_key. cbn [List.filter].
  destruct (str_eqb (sort_key x) k); reflexivity.
Qed.

Lemma insert_by_key_with_key k x l :
  StronglySorted key_le l ->
  with_key k (insert_by_key x l) = with_key k l ++ with_key k [x].
Proof.
  induction 1 as [|y r Hr IH Hy]; [reflexivity|].
  cbn [insert_by_key].
  destruct (str_ltb (lower x.1) (lower y.1)) eqn:Hlt.
  - rewrite (with_key_cons k x (y :: r)).
    destruct (str_eqb (sort_key x) k) eqn:E.
    + apply str_eqb_eq in E.
      rewrite (with_key_above k (y :: r)); [rewrite app_nil_r; reflexivity|].
      constructor.
      * left. rewrite <- E. exact Hlt.
      * eapply List.Forall_impl; [|exact Hy]. intros z Hz. right. exists y.
        split; [rewrite <- E; exact Hlt | exact Hz].
    + assert (Hx : with_key k [x] = []).
      { unfold with_key. cbn [List.filter]. rewrite E. reflexivity. }
      rewrite Hx, app_nil_r. reflexivity.
  - rewrite (with_key_cons k y (insert_by_key x r)), IH, (with_key_cons k y r).
    rewrite app_assoc. reflexivity.
Qed.

Lemma sorted_items_snoc idx x :
  sorted_items (idx ++ [x]) = insert_by_key x (sorted_items idx).
Proof. unfold sorted_items. rewrite fold_left_app. reflexivity. Qed.

Lemma sorted_items_sorted idx : StronglySorted key_le (sorted_items idx).
Proof.
  induction idx as [|x idx IH] using rev_ind; [constructor|].
  rewrite sorted_items_snoc. apply insert_by_key_sorted, IH.
Qed.

(** X12. The download loop of [run_group] visits the index sorted by the
    lower-cased name: every item of the index once, no item before one with
    a smaller key, and the items whose names differ only in case in the
    order in which they entered the index. *)
Theorem sorted_items_stable_sort (idx : index) :
  Permutation (sorted_items idx) idx /\
  StronglySorted key_le (sorted_items idx) /\
  forall k, with_key k (sorted_items idx) = with_key k idx.
Proof.
  split; [apply sorted_items_Permutation|]. split; [apply sorted_items_sorted|].
  intros k. induction idx as [|x idx IH] using rev_ind; [reflexivity|].
  rewrite sorted_items_snoc, insert_by_key_with_key by apply sorted_items_sorted.
  rewrite IH. unfold with_key. rewrite List.filter_app. reflexivity.
Qed.

(** ** The file-info lookup *)

Lemma first_image_url_nonempty pages u : first_image_url pages = Some u -> u <> [].
Proof.
  induction pages as [|p rest IH]; [discriminate|].
  cbn [first_image_url].
  destruct p as [|[[|c v]|] p']; try exact IH.
  intros E. injection E as <-. discriminate.
Qed.

Lemma not_denied_status st :
  (st =? 403)%Z = false -> forall e, raise_for_status st = Raise e ->
  e = HTTPError st /\ st <> 403%Z /\ (400 <= st < 600)%Z.
Proof.
  intros Hst e. unfold raise_for_status.
  destruct ((400 <=? st) && (st <? 600))%Z eqn:Hr; [|discriminate].
  intros E. injection E as <-. apply andb_true_iff in Hr.
  split; [reflexivity|]. lia.
Qed.

(** what one turn of the loop over the namespaces does *)
Lemma image_url_in_turn w filename ns rest :
  (info_denied w ns filename /\ image_url_in w filename (ns :: rest) = Ok None) \/
  (exists u, info_holds w ns filename (Some u) /\
             image_url_in w filename (ns :: rest) = Ok (Some u)) \/
  (info_holds w ns filename None /\
   image_url_in w filename (ns :: rest) = image_url_in w filename rest) \/
  (exists e, image_url_in w filename (ns :: rest) = Raise e /\
     (e = ConnectionError \/ e = JSONDecodeError \/
      exists st, e = HTTPError st /\ st <> 403%Z /\ (400 <= st < 600)%Z)).
Proof.
  cbn [image_url_in]. unfold info_denied, info_holds.
  destruct (get_imageinfo w (ns ++ filename)) as [r|] eqn:Hr; run_bind.
  2:{ right. right. right. eauto. }
  destruct (i_status r =? 403)%Z eqn:H403.
  { left. split; [|reflexivity]. exists r. split; [reflexivity|]. lia. }
  destruct (raise_for_status (i_status r)) as [[]|e] eqn:Hst; run_bind.
  2:{ right. right. right. exists e. split; [reflexivity|]. right. right.
      exists (i_status r). exact (not_denied_status _ H403 e Hst). }
  destruct (i_pages r) as [pages|] eqn:Hp; run_bind.
  2:{ right. right. right. eauto. }
  destruct (first_image_url pages) as [u|] eqn:Hu.
  - right. left. exists u. split; [|reflexivity]. exists r, pages. auto.
  - right. right. left. split; [|reflexivity]. exists r, pages. auto.
Qed.



(** ** The rows of the creature lists *)











(** ** The title asked of the parse API *)

Lemma split_str_from_skip sep cur x s :
  split_str_from sep (length x) cur (x ++ s) = split_str_from sep 0 cur s.
Proof.
  induction x as [|a x IH]; [reflexivity|].
  cbn [length app split_str_from]. exact IH.
Qed.

Lemma split_str_from_none sep cur s :
  contains sep s = false -> split_str_from sep 0 cur s = [rev cur ++ s].
Proof.
  revert cur. induction s as [|c r IH]; intros cur H.
  - cbn [split_str_from]. rewrite app_nil_r. reflexivity.
  - cbn [contains] in H. apply orb_false_iff in H. destruct H as [Hp Hr].
    cbn [split_str_from]. rewrite Hp, (IH (c :: cur) Hr).
    cbn [rev]. rewrite <- app_assoc. reflexivity.
Qed.

Lemma is_prefix_app_long p x y :
  length p <= length x -> is_prefix p (x ++ y) = is_prefix p x.
Proof.
  revert x. induction p as [|a p IH]; intros [|b x] H; cbn in H; try lia;
    try reflexivity.
  cbn [app is_prefix]. rewrite IH by lia. reflexivity.
Qed.

Lemma split_str_from_first sep cur pre t :
  sep <> [] ->
  contains sep (pre ++ removelast sep) = false ->
  split_str_from sep 0 cur (pre ++ sep ++ t) =
    (rev cur ++ pre) :: split_str_from sep 0 [] t.
Proof.
  intros Hsep. revert cur. induction pre as [|c pre IH]; intros cur H.
  - cbn [app]. destruct sep as [|a sep]; [congruence|].
    pose proof (is_prefix_app (a :: sep) t) as Hp. cbn [app] in Hp.
    cbn [app split_str_from]. rewrite Hp, app_nil_r.
    replace (length (a :: sep) - 1) with (length sep) by (cbn [length]; lia).
    f_equal. apply split_str_from_skip.
  - cbn [app contains] in H. apply orb_false_iff in H. destruct H as [Hp Hr].
    cbn [app split_str_from].
    assert (Hfalse : is_prefix sep (c :: pre ++ sep ++ t) = false).
    { rewrite <- Hp.
      assert (Hs : sep = removelast sep ++ [List.last sep " "%char])
        by (apply app_removelast_last; exact Hsep).
      rewrite Hs at 2. rewrite <- app_assoc.
      change (c :: pre ++ removelast sep ++ [List.last sep " "%char] ++ t)
        with ((c :: pre) ++ removelast sep ++ ([List.last sep " "%char] ++ t)).
      rewrite app_assoc. apply is_prefix_app_long.
      apply (f_equal (@length _)) in Hs.
      rewrite !length_app in Hs. cbn [length] in Hs.
      cbn [length]. rewrite length_app. lia. }
    rewrite Hfalse, (IH (c :: cur) Hr). cbn [rev]. rewrite <- app_assoc. reflexivity.
Qed.

(** X15. The title that [fetch_html] asks of the parse API is the
    unquoted text after the first /wiki/ of the path when no further /wiki/
    follows, and the whole unquoted path when the path has no /wiki/. *)
Theorem page_title_of_path (lib : library) (url : str) :
  (forall pre t,
     url_path lib url = pre ++ py "/wiki/" ++ t ->
     contains (py "/wiki/") (pre ++ py "/wiki") = false ->
     contains (py "/wiki/") t = false ->
     page_title lib url = unquote lib t) /\
  (contains (py "/wiki/") (url_path lib url) = false ->
   page_title lib url = unquote lib (url_path lib url)).
Proof.
  unfold page_title, split_str. split.
  - intros pre t Hpath Hpre Ht. rewrite Hpath.
    rewrite (split_str_from_first (py "/wiki/") [] pre t); [|discriminate|exact Hpre].
    rewrite (split_str_from_none _ [] t Ht). reflexivity.
  - intros H. rewrite (split_str_from_none _ [] _ H). reflexivity.
Qed.

Lemma page_title_of_path_witness :
  page_title (sample_library (Text []) "") (py "/wiki/Plantas_(Criatura)")
  = py "Plantas_(Criatura)".
Proof.
  destruct (page_title_of_path (sample_library (Text []) "") (py "/wiki/Plantas_(Criatura)"))
    as [H _].
  apply (H [] (py "Plantas_(Criatura)")); reflexivity.
Defined.

(** ** What the download loop of [run_group] touches *)

Lemma group_step_effect w st name row st' :
  group_step w st (name, row) = Ok st' ->
  (g_files st' = g_files st /\
   g_downloaded st' + g_skipped st' <=
     g_downloaded st + g_skipped st +
     (if present (e_file row) (g_files st) then 0 else 1)) \/
  (present (e_file row) (g_files st) = false /\
   g_downloaded st' + g_skipped st' = S (g_downloaded st + g_skipped st) /\
   exists body, g_files st' = <[e_file row := body]> (g_files st)).
Proof.
  unfold group_step.
  destruct (mw_original_image_url w (e_sourceWikiFile row)) as [src|e]; run_bind;
    [|discriminate].
  destruct (present (e_file row) (g_files st)) eqn:Hp.
  - intros E. injection E as <-. left. cbn. split; [reflexivity | lia].
  - destruct src as [[|c u]|];
      try (intros E; injection E as <-; left; cbn; split; [reflexivity | lia]).
    destruct (download_wiki_cases w (c :: u) (e_file row) (g_files st))
      as [(Hfs & (e & He) & _)|(r & _ & _ & Hfs & Hres)];
      destruct (download_wiki w (c :: u) (e_file row) (g_files st)) as [fs' [x|e']];
      cbn [fst snd] in *; intros E; injection E as <-; cbn.
    + left. split; [exact Hfs | lia].
    + left. split; [exact Hfs | lia].
    + right. split; [reflexivity|]. split; [lia|]. eauto.
    + right. split; [reflexivity|]. split; [lia|]. eauto.
Qed.

Lemma present_false_before w st item st' f :
  group_step w st item = Ok st' ->
  present f (g_files st') = false -> present f (g_files st) = false.
Proof.
  intros Hstep H. destruct (present f (g_files st)) eqn:Hp; [|reflexivity].
  rewrite (group_step_present w st item st' f Hstep Hp) in H. discriminate.
Qed.

Lemma group_loop_frame w items st st' (q : str) :
  group_loop w items st = Ok st' ->
  (forall kv, In kv items -> present (e_file kv.2) (g_files st) = false ->
              e_file kv.2 <> q) ->
  g_files st' !! q = g_files st !! q.
Proof.
  revert st. induction items as [|[name row] rest IH]; intros st; cbn [group_loop].
  - intros E. injection E as <-. reflexivity.
  - destruct (group_step w st (name, row)) as [st1|e] eqn:Hstep; run_bind; [|discriminate].
    intros Hloop Hq. rewrite (IH st1 Hloop).
    + destruct (group_step_effect w st name row st1 Hstep)
        as [(-> & _)|(Hp & _ & body & ->)]; [reflexivity|].
      apply lookup_insert_ne. apply (Hq (name, row)); [left; reflexivity | exact Hp].
    + intros kv Hin Hp. apply (Hq kv); [right; exact Hin|].
      exact (present_false_before w st _ st1 _ Hstep Hp).
Qed.

Lemma group_loop_grows w items st st' (q : str) :
  group_loop w items st = Ok st' ->
  is_Some (g_files st !! q) -> is_Some (g_files st' !! q).
Proof.
  revert st. induction items as [|[name row] rest IH]; intros st; cbn [group_loop].
  - intros E. injection E as <-. trivial.
  - destruct (group_step w st (name, row)) as [st1|e] eqn:Hstep; run_bind; [|discriminate].
    intros Hloop Hq. apply (IH st1 Hloop).
    destruct (group_step_effect w st name row st1 Hstep)
      as [(-> & _)|(_ & _ & body & ->)]; [exact Hq|].
    apply lookup_insert_is_Some.
    destruct (decide (e_file row = q)); [left | right]; tauto.
Qed.

Lemma filter_length_mono {A} (f g : A -> bool) l :
  (forall x, f x = true -> g x = true) ->
  length (List.filter f l) <= length (List.filter g l).
Proof.
  intros H. induction l as [|x l IH]; [reflexivity|].
  cbn [List.filter]. destruct (f x) eqn:Hf.
  - rewrite (H x Hf). cbn [length]. lia.
  - destruct (g x); cbn [length]; lia.
Qed.

Lemma filter_length_Permutation {A} (f : A -> bool) l l' :
  Permutation l l' -> length (List.filter f l) = length (List.filter f l').
Proof.
  induction 1 as [|x l l' _ IH|x y l|l l' l'' _ IH1 _ IH2]; cbn [List.filter].
  - reflexivity.
  - destruct (f x); cbn [length]; lia.
  - destruct (f x), (f y); reflexivity.
  - lia.
Qed.

Lemma group_loop_counts w items st st' :
  group_loop w items st = Ok st' ->
  g_downloaded st' + g_skipped st' <=
    g_downloaded st + g_skipped st + length (absent_files (g_files st) items).
Proof.
  revert st. induction items as [|[name row] rest IH]; intros st; cbn [group_loop].
  - intros E. injection E as <-. cbn. lia.
  - destruct (group_step w st (name, row)) as [st1|e] eqn:Hstep; run_bind; [|discriminate].
    intros Hloop. pose proof (IH st1 Hloop) as Hrest.
    assert (Hmono : length (absent_files (g_files st1) rest) <=
                    length (absent_files (g_files st) rest)).
    { apply filter_length_mono. intros kv Hkv. apply negb_true_iff in Hkv.
      apply negb_true_iff. exact (present_false_before w st _ st1 _ Hstep Hkv). }
    assert (Hcons : length (absent_files (g_files st) ((name, row) :: rest)) =
                    (if present (e_file row) (g_files st) then 0 else 1) +
                    length (absent_files (g_files st) rest)).
    { unfold absent_files. cbn [List.filter snd].
      destruct (present (e_file row) (g_files st)); reflexivity. }
    rewrite Hcons.
    destruct (group_step_effect w st name row st1 Hstep) as [(_ & Hc)|(Hp & Hc & _)].
    + lia.
    + rewrite Hp. lia.
Qed.

(** X16. The download loop of [run_group] changes no file but those that
    the index names and that were missing or empty, removes no file, and
    counts as downloaded or skipped at most the rows whose file was missing
    or empty. *)
Theorem mirror_group_touches (w : site) (idx : index) (fs : dir) (g : group) :
  mirror_group w idx fs = Ok g ->
  (forall q : str,
     (forall kv, In kv idx -> present (e_file kv.2) fs = false -> e_file kv.2 <> q) ->
     g_files g !! q = fs !! q) /\
  (forall q : str, is_Some (fs !! q) -> is_Some (g_files g !! q)) /\
  g_downloaded g + g_skipped g <= length (absent_files fs idx).
Proof.
  unfold mirror_group. intros Hloop.
  pose proof (sorted_items_Permutation idx) as Hperm.
  split; [|split].
  - intros q Hq. rewrite (group_loop_frame _ _ _ _ q Hloop); [reflexivity|].
    cbn [g_files]. intros kv Hin. apply Hq. exact (Permutation_in _ Hperm Hin).
  - intros q Hq. exact (group_loop_grows _ _ _ _ q Hloop Hq).
  - pose proof (group_loop_counts _ _ _ _ Hloop) as Hc. cbn in Hc.
    unfold absent_files in *.
    rewrite <- (filter_length_Permutation _ _ _ Hperm). exact Hc.
Qed.

Lemma mirror_group_touches_witness :
  match mirror_group creature_site rat_index {[ py "Rat.gif" := py "old" ]} with
  | Ok g => g_downloaded g + g_skipped g <=
              length (absent_files {[ py "Rat.gif" := py "old" ]} rat_index)
  | Raise _ => False
  end.
Proof.
  destruct (mirror_group creature_site rat_index {[ py "Rat.gif" := py "old" ]})
    as [g|e] eqn:E.
  - apply (mirror_group_touches creature_site rat_index _ g E).
  - vm_compute in E. discriminate E.
Defined.

(** ** A stream that breaks *)

Lemma mw_original_image_url_nonempty w filename u :
  mw_original_image_url w filename = Ok (Some u) -> u <> [].
Proof.
  unfold mw_original_image_url. intros Hu.
  assert (Hh : forall ns v, info_holds w ns filename (Some v) -> v <> []).
  { intros ns v (r & pages & _ & _ & _ & Hf). exact (first_image_url_nonempty _ _ Hf). }
  destruct (image_url_in_turn w filename (py "Arquivo:") [py "File:"])
    as [(_ & E)|[(u1 & H1 & E)|[(_ & E)|(e & E & _)]]]; try congruence.
  - assert (u1 = u) by congruence. subst u1. exact (Hh _ _ H1).
  - rewrite E in Hu.
    destruct (image_url_in_turn w filename (py "File:") [])
      as [(_ & E2)|[(u2 & H2 & E2)|[(_ & E2)|(e & E2 & _)]]]; try congruence.
    + assert (u2 = u) by congruence. subst u2. exact (Hh _ _ H2).
    + rewrite E2 in Hu. discriminate.
Qed.

(** X17. When the stream of a creature image breaks after some bytes, the
    download loop of [run_group] leaves the bytes received under the file
    name and counts the row as skipped; the file then passes for present,
    so that a later run over this directory leaves it as it is. *)
Theorem broken_download_kept (w : site) (st : group) (name : str) (row : entry)
    (u : str) (r : file_response) :
  mw_original_image_url w (e_sourceWikiFile row) = Ok (Some u) ->
  present (e_file row) (g_files st) = false ->
  get_file w u = Some r ->
  raise_for_status (f_status r) = Ok tt ->
  f_complete r = false ->
  f_body r <> [] ->
  exists st',
    group_step w st (name, row) = Ok st' /\
    g_files st' = <[e_file row := f_body r]> (g_files st) /\
    g_downloaded st' = g_downloaded st /\
    g_skipped st' = S (g_skipped st) /\
    present (e_file row) (g_files st') = true /\
    forall idx g,
      mirror_group w idx (g_files st') = Ok g ->
      g_files g !! e_file row = Some (f_body r).
Proof.
  intros Hu Hp Hr Hst Hc Hb.
  pose proof (mw_original_image_url_nonempty _ _ _ Hu) as Hne.
  destruct u as [|c u]; [congruence|].
  assert (Hd : download_wiki w (c :: u) (e_file row) (g_files st) =
               (<[e_file row := f_body r]> (g_files st), Raise ConnectionError)).
  { unfold download_wiki. rewrite Hr, Hst, Hc. reflexivity. }
  assert (Hpres : present (e_file row) (<[e_file row := f_body r]> (g_files st)) = true).
  { unfold present. rewrite lookup_insert_eq. destruct (f_body r); [congruence | reflexivity]. }
  eexists. split.
  { unfold group_step. rewrite Hu. run_bind. rewrite Hp, Hd. reflexivity. }
  cbn [g_files g_downloaded g_skipped].
  repeat (split; [reflexivity || exact Hpres|]).
  intros idx g Hg. unfold mirror_group in Hg.
  rewrite (group_loop_keeps_file _ _ _ _ (e_file row) Hg); cbn [g_files].
  - apply lookup_insert_eq.
  - exact Hpres.
Qed.

Lemma broken_download_kept_witness :
  exists st',
    group_step broken_site
      {| g_index := rat_index; g_files := ∅; g_downloaded := 0; g_skipped := 0 |}
      (py "Rat", {| e_name := py "Rat"; e_file := py "Rat.gif";
                    e_sourceWikiFile := py "Rat.gif"; e_sourceUrl := [] |}) = Ok st' /\
    g_files st' = <[py "Rat.gif" := py "GIF"]> ∅.
Proof.
  destruct (broken_download_kept broken_site
              {| g_index := rat_index; g_files := ∅; g_downloaded := 0; g_skipped := 0 |}
              (py "Rat")
              {| e_name := py "Rat"; e_file := py "Rat.gif";
                 e_sourceWikiFile := py "Rat.gif"; e_sourceUrl := [] |}
              (py "https://www.tibiawiki.com.br/images/Arquivo:Rat.gif")
              {| f_status := 200; f_content_type := py "image/gif";
                 f_body := py "GIF"; f_complete := false |})
    as (st' & Hstep & Hfiles & _); try reflexivity; [discriminate|].
  exists st'. split; [exact Hstep | exact Hfiles].
Defined.

(** ** The category of the mounts *)





(** ** [main] of the mounts script *)










(** ** The index of the mounts and outfits scripts, entry by entry *)






